(** * Convention-based route discovery: the route loader plugin

    A shallow embedding of the route loader (the plugin exporting
    [loadRoutes], with its helpers [loadRoutesFromDirectory] and
    [determineRoutePath]) and the properties its specification states.

    Strings.  A JavaScript string is modelled as a Rocq [string], one
    [ascii] per UTF-16 code unit, which covers the code units below 256.
    Every character the loader looks at ([/], [[], []], [.], [:], the
    decimal digits and the line terminators LF and CR) lies in that range;
    the two remaining line terminators of the regular-expression
    dialect, U+2028 and U+2029, are outside the modelled alphabet.

    Platform.  [path.sep] and [path.join] are those of a POSIX host: the
    loader's own regular expression and its [file://] URLs are written
    with forward slashes.  On such a host [readdir] reports the names of
    a directory in byte-wise order; the loader itself does not sort, and
    the statements that need the order say so. *)

From Stdlib Require Import Strings.String Strings.Ascii Lists.List Bool Arith Lia.
Import ListNotations.
Open Scope string_scope.
Open Scope list_scope.

(** ** String primitives of the host language *)

(** [s.startsWith(p)] *)
Definition startsWith (p s : string) : bool := String.prefix p s.

(** [s.endsWith(p)]: some tail of [s] is [p]. *)
Fixpoint endsWith (p s : string) : bool :=
  match s with
  | EmptyString => p =? ""
  | String _ s' => (s =? p) || endsWith p s'
  end.

(** [s.slice(1, -1)]: from index 1 up to, not including, the last index. *)
Definition slice_1_m1 (s : string) : string :=
  String.substring 1 (String.length s - 2) s.

(** [s.split(sep)] for a one-character separator; never the empty array. *)
Fixpoint split (sep : ascii) (s : string) : list string :=
  match s with
  | EmptyString => [""]
  | String c s' =>
      if Ascii.eqb c sep then "" :: split sep s'
      else match split sep s' with
           | [] => [String c ""]
           | seg :: segs => String c seg :: segs
           end
  end.

(** Whether a character occurs in a string. *)
Fixpoint occurs (c : ascii) (s : string) : bool :=
  match s with
  | EmptyString => false
  | String d s' => Ascii.eqb d c || occurs c s'
  end.

(** [Boolean(s)] on a string: the empty string is the only falsy one. *)
Definition truthy (s : string) : bool := negb (s =? "").

(** [path.sep] *)
Definition path_sep : ascii := "/"%char.

(** ** The two regular-expression replacements of [determineRoutePath] *)

(** [\d] *)
Definition isDigit (c : ascii) : bool :=
  let n := nat_of_ascii c in ((48 <=? n) && (n <=? 57))%nat.

(** The characters [.] refuses (no [s] flag): LF and CR. *)
Definition isLineTerminator (c : ascii) : bool :=
  let n := nat_of_ascii c in ((n =? 10) || (n =? 13))%nat.

(** Drops the longest run of digits at the head: the greedy [\d*]. *)
Fixpoint skipDigits (s : string) : string :=
  match s with
  | String c s' => if isDigit c then skipDigits s' else s
  | EmptyString => s
  end.

(** Removes [p] from the head of [s], when it is there. *)
Fixpoint stripPrefix (p s : string) : option string :=
  match p, s with
  | EmptyString, _ => Some s
  | String a p', String b s' => if Ascii.eqb a b then stripPrefix p' s' else None
  | String _ _, EmptyString => None
  end.

(** [\/routes\/v\d+\/] anchored at the head of [s]: what follows the match.
    [\d+] is greedy; giving digits back never helps, since the character
    after a shorter run is a digit and not [/]. *)
Definition matchVersionDir (s : string) : option string :=
  match stripPrefix "/routes/v" s with
  | Some (String d r) =>
      if isDigit d then
        match skipDigits r with
        | String c rest => if Ascii.eqb c "/" then Some rest else None
        | EmptyString => None
        end
      else None
  | _ => None
  end.

(** [.*\/routes\/v\d+\/] anchored at the head of [s]: what follows the
    match.  The greedy [.*] first tries to take one more character (never a
    line terminator) and gives it back only when the rest cannot match. *)
Fixpoint matchDotStarVersionDir (s : string) : option string :=
  match s with
  | EmptyString => matchVersionDir s
  | String c s' =>
      if isLineTerminator c then matchVersionDir s
      else match matchDotStarVersionDir s' with
           | Some rest => Some rest
           | None => matchVersionDir s
           end
  end.

(** [s.replace(/.*\/routes\/v\d+\//, '')]: the match that starts leftmost
    is removed, the characters before it stay. *)
Fixpoint stripVersionPrefix (s : string) : string :=
  match matchDotStarVersionDir s with
  | Some rest => rest
  | None =>
      match s with
      | EmptyString => ""
      | String c s' => String c (stripVersionPrefix s')
      end
  end.

(** [s.replace(/\.(ts|js)$/, '')] *)
Fixpoint stripExtension (s : string) : string :=
  match s with
  | EmptyString => ""
  | String c s' =>
      if (s =? ".ts") || (s =? ".js") then "" else String c (stripExtension s')
  end.

(** ** [determineRoutePath] *)

(** The test of the callback's first branch. *)
Definition isDynamicSegment (segment : string) : bool :=
  startsWith "[" segment && endsWith "]" segment.

(** The callback given to [map]. *)
Definition mapSegment (segment : string) : string :=
  if isDynamicSegment segment then ":" ++ slice_1_m1 segment
  else if segment =? "index" then ""
  else segment.

(** The constant [relativePath]. *)
Definition relativePath (filePath : string) : string :=
  stripExtension (stripVersionPrefix filePath).

Definition determineRoutePath (filePath _basePath : string) : string :=
  let relativePath := relativePath filePath in
  let routePath :=
    String.concat "/"
      (filter truthy (map mapSegment (split path_sep relativePath))) in
  if negb (startsWith "/" routePath) then "/" ++ routePath else routePath.

(** The segments the callback is applied to. *)
Definition sourceSegments (filePath : string) : list string :=
  split path_sep (relativePath filePath).

(** The function returns the pattern only.  The parameter names of a route
    are the texts the callback's first branch writes after [:], in the
    order of the segments. *)
Definition dynamicParamNames (filePath : string) : list string :=
  map slice_1_m1 (filter isDynamicSegment (sourceSegments filePath)).

(** The segments of a produced pattern. *)
Definition patternSegments (urlPattern : string) : list string :=
  filter truthy (split "/" urlPattern).

(** [l1] is [l2] with some elements left out, the order kept. *)
Inductive Subsequence {A : Type} : list A -> list A -> Prop :=
| SubsequenceNil : Subsequence [] []
| SubsequenceSkip x l1 l2 : Subsequence l1 l2 -> Subsequence l1 (x :: l2)
| SubsequenceKeep x l1 l2 : Subsequence l1 l2 -> Subsequence (x :: l1) (x :: l2).

(** [path.extname] on an entry name (no separator inside): the text from
    the last dot on, empty when there is no dot, when the only dot is the
    first character, or when the name is [..]. *)
Fixpoint fromLastDot (s : string) : option string :=
  match s with
  | EmptyString => None
  | String c s' =>
      match fromLastDot s' with
      | Some e => Some e
      | None => if Ascii.eqb c "." then Some s else None
      end
  end.

Definition extname (name : string) : string :=
  match name with
  | EmptyString => ""
  | String _ rest =>
      if name =? ".." then ""
      else match fromLastDot rest with
           | Some e => e
           | None => ""
           end
  end.

(** [path.join] of two parts, on the arguments the loader gives it: a
    normalised directory path (or the empty string, which is ignored) and
    an entry name. *)
Definition join (a b : string) : string :=
  if a =? "" then b
  else if endsWith "/" a then a ++ b
  else a ++ "/" ++ b.

(** ** Thrown values, the file system, the log *)

(** What a [catch] clause can receive: an [Error] instance, of which the
    loader reads [name] and [message] (and [stack], left out here), or any
    other value, of which it reads [String(error)]. *)
Inductive Thrown : Type :=
| ErrorObject (name message : string)
| OtherValue (text : string).

(** [error instanceof Error ? error.name : 'Unknown'] *)
Definition errorName (error : Thrown) : string :=
  match error with
  | ErrorObject name _ => name
  | OtherValue _ => "Unknown"
  end.

(** [error instanceof Error ? error.message : String(error)] *)
Definition errorMessage (error : Thrown) : string :=
  match error with
  | ErrorObject _ message => message
  | OtherValue text => text
  end.

(** What is found at a path.  The entries of a directory are kept in the
    order [readdir] reports them, which on the host is the byte-wise order
    of their names ([listingsSorted] below). *)
#[warnings="-register-all"] Inductive Node : Type :=
| RegularFile
| Directory (entries : list (string * Node))
| UnreadableDirectory (error : Thrown)
| OtherEntry
| Absent (error : Thrown).

Inductive StatInfo : Type := StatFile | StatDirectory | StatOther.

Definition isDirectory (s : StatInfo) : bool :=
  match s with StatDirectory => true | _ => false end.

Definition isFile (s : StatInfo) : bool :=
  match s with StatFile => true | _ => false end.

(** [await stat(fullPath)] *)
Definition stat (n : Node) : Thrown + StatInfo :=
  match n with
  | RegularFile => inr StatFile
  | Directory _ => inr StatDirectory
  | UnreadableDirectory _ => inr StatDirectory
  | OtherEntry => inr StatOther
  | Absent e => inl e
  end.

Definition ENOTDIR (path : string) : Thrown :=
  ErrorObject "Error" ("ENOTDIR: not a directory, scandir '" ++ path ++ "'").

(** [await readdir(dirPath, { withFileTypes: true })] *)
Definition readdir (dirPath : string) (n : Node) : Thrown + list (string * Node) :=
  match n with
  | Directory entries => inr entries
  | UnreadableDirectory e => inl e
  | Absent e => inl e
  | RegularFile => inl (ENOTDIR dirPath)
  | OtherEntry => inl (ENOTDIR dirPath)
  end.

Inductive Level : Type := info | warn | error.

(** The object a log call is given. *)
Inductive LogFields : Type :=
| RouteLoaded (routePath filePath basePath : string)
| RouteFile (filePath : string)
| RouteFileError (filePath errName errMessage : string)
| DirectoryError (dirPath errName errMessage : string)
| RoutesDir (routesDir : string)
| RoutesDirError (routesDir errName errMessage : string)
| NoFields.

(** The extension test of the loop body. *)
Definition isRouteFileName (name : string) : bool :=
  (extname name =? ".ts") || (extname name =? ".js").

(** ** The loader *)

Section Loader.

(** The server instance and the plugins a route file can export. *)
Context {Server Plugin : Type}.

(** [routeModule.default] *)
Inductive DefaultExport : Type :=
| NoDefault
| NotCallable
| Callable (routePlugin : Plugin).

(** What the run does that can be seen from outside, in order. *)
Inductive Event : Type :=
| Log (level : Level) (fields : LogFields) (message : string)
| Import (url : string)
| Register (routePlugin : Plugin) (prefix : string).

Record LoaderState : Type := mkLoaderState {
  fastify : Server;
  events : list Event
}.

(** An asynchronous function: it may throw, and its effects on the
    server and the trace stay when it does. *)
Definition M (A : Type) : Type := LoaderState -> (Thrown + A) * LoaderState.

Definition ret {A} (a : A) : M A := fun st => (inr a, st).

Definition throw {A} (e : Thrown) : M A := fun st => (inl e, st).

Definition bind {A B} (m : M A) (k : A -> M B) : M B :=
  fun st =>
    match m st with
    | (inl e, st') => (inl e, st')
    | (inr a, st') => k a st'
    end.

Definition tryCatch {A} (body : M A) (handler : Thrown -> M A) : M A :=
  fun st =>
    match body st with
    | (inl e, st') => handler e st'
    | (inr a, st') => (inr a, st')
    end.

Definition settle {A} (r : Thrown + A) : M A :=
  match r with
  | inl e => throw e
  | inr a => ret a
  end.

Definition emit (ev : Event) : M unit :=
  fun st => (inr tt, mkLoaderState (fastify st) (events st ++ [ev])).

Notation "x <- m ;; k" := (bind m (fun x => k))
  (at level 61, m at next level, right associativity).
Notation "m ;;; k" := (bind m (fun _ => k))
  (at level 61, right associativity).

(** [await import(url)]: what the module at a URL evaluates to. *)
Variable importModule : string -> Thrown + DefaultExport.

(** [await fastify.register(routePlugin, { prefix })]: the server after
    the call, and what the call threw, if it did. *)
Variable register : Plugin -> string -> Server -> option Thrown * Server.

Definition awaitImport (url : string) : M DefaultExport :=
  emit (Import url) ;;; settle (importModule url).

Definition awaitRegister (routePlugin : Plugin) (prefix : string) : M unit :=
  emit (Register routePlugin prefix) ;;;
  fun st =>
    match register routePlugin prefix (fastify st) with
    | (Some e, server') => (inl e, mkLoaderState server' (events st))
    | (None, server') => (inr tt, mkLoaderState server' (events st))
    end.

(** The inner [try] of the loop body: one route file. *)
Definition loadRouteFile (fullPath basePath : string) : M unit :=
  tryCatch
    (routePlugin <- awaitImport ("file://" ++ fullPath) ;;
     match routePlugin with
     | Callable routePlugin =>
         let routePath := determineRoutePath fullPath basePath in
         awaitRegister routePlugin routePath ;;;
         emit (Log info (RouteLoaded routePath fullPath basePath)
                 ("✓ Loaded route: " ++ routePath))
     | _ =>
         emit (Log warn (RouteFile fullPath)
                 "Route file does not export a valid plugin function")
     end)
    (fun e =>
       emit (Log error (RouteFileError fullPath (errorName e) (errorMessage e))
               ("Failed to load route from " ++ fullPath))).

(** The [for ... of] loop over the entries of [dirPath]; [recur] is the
    recursive call. *)
Definition forEntries (recur : Node -> string -> string -> M unit)
  (dirPath basePath : string) : list (string * Node) -> M unit :=
  fix loop (entries : list (string * Node)) : M unit :=
    match entries with
    | [] => ret tt
    | (name, entry) :: rest =>
        let fullPath := join dirPath name in
        (statInfo <- settle (stat entry) ;;
         if isDirectory statInfo then
           recur entry fullPath (join basePath name)
         else if isFile statInfo && isRouteFileName name then
           loadRouteFile fullPath basePath
         else ret tt) ;;;
        loop rest
    end.

(** The [catch] clause of the outer [try]. *)
Definition directoryFailed (dirPath : string) (e : Thrown) : M unit :=
  emit (Log error (DirectoryError dirPath (errorName e) (errorMessage e))
          ("Error loading routes from directory " ++ dirPath)).

(** The recursion is on the directory tree.  The entries are read off the
    node where [readdir] succeeds, which is on a readable directory and
    nowhere else; [loadRoutesFromDirectory_unfold] gives the body as it
    is written in the source. *)
Fixpoint loadRoutesFromDirectory (dir : Node) (dirPath basePath : string)
  {struct dir} : M unit :=
  tryCatch
    (match dir with
     | Directory entries =>
         forEntries loadRoutesFromDirectory dirPath basePath entries
     | _ => _ <- settle (readdir dirPath dir) ;; ret tt
     end)
    (directoryFailed dirPath).

(** The plugin body; [cwd] is [process.cwd()] and [routes] what the file
    system holds at the routes directory. *)
Definition loadRoutes (cwd : string) (routes : Node) : M unit :=
  let routesDir := join (join cwd "src") "routes" in
  tryCatch
    (emit (Log info (RoutesDir routesDir) "Loading routes from directory") ;;;
     loadRoutesFromDirectory routes routesDir "" ;;;
     emit (Log info NoFields "All routes loaded successfully"))
    (fun e =>
       emit (Log error (RoutesDirError routesDir (errorName e) (errorMessage e))
               "Failed to load routes") ;;;
       throw e).

End Loader.

Arguments DefaultExport : clear implicits.
Arguments Event : clear implicits.
Arguments LoaderState : clear implicits.

(** ** The walk, as a sequence *)

(** What the walk meets, in order: a route file that will be given to the
    per-file pipeline, or a [readdir] or [stat] failure, reported against
    the directory being read. *)
Inductive WalkItem : Type :=
| Candidate (fullPath basePath : string)
| Unreadable (dirPath : string) (error : Thrown).

(** The items met in the entries of one directory; [recur] is the walk of
    a subdirectory.  A [stat] that throws ends the reading of the
    directory it occurs in. *)
Definition walkEntries (recur : Node -> string -> string -> list WalkItem)
  (dirPath basePath : string) : list (string * Node) -> list WalkItem :=
  fix loop (entries : list (string * Node)) : list WalkItem :=
    match entries with
    | [] => []
    | (name, entry) :: rest =>
        let fullPath := join dirPath name in
        match stat entry with
        | inl e => [Unreadable dirPath e]
        | inr statInfo =>
            (if isDirectory statInfo then
               recur entry fullPath (join basePath name)
             else if isFile statInfo && isRouteFileName name then
               [Candidate fullPath basePath]
             else []) ++ loop rest
        end
    end.

(** Depth first, each directory in the order of its listing. *)
Fixpoint walk (dir : Node) (dirPath basePath : string) {struct dir}
  : list WalkItem :=
  match dir with
  | Directory entries => walkEntries walk dirPath basePath entries
  | _ =>
      match readdir dirPath dir with
      | inl e => [Unreadable dirPath e]
      | inr _ => []
      end
  end.

(** The candidate files of a walk: full path and base path. *)
Fixpoint candidates (items : list WalkItem) : list (string * string) :=
  match items with
  | [] => []
  | Candidate fullPath basePath :: rest => (fullPath, basePath) :: candidates rest
  | Unreadable _ _ :: rest => candidates rest
  end.

Definition routesDirOf (cwd : string) : string := join (join cwd "src") "routes".

Definition moduleUrl (c : string * string) : string := "file://" ++ fst c.

Definition routePathOf (c : string * string) : string :=
  determineRoutePath (fst c) (snd c).

Section Observations.

Context {Server Plugin : Type}.

(** The URLs given to [import], in order. *)
Fixpoint importsOf (evs : list (Event Plugin)) : list string :=
  match evs with
  | [] => []
  | Import url :: rest => url :: importsOf rest
  | _ :: rest => importsOf rest
  end.

(** The calls of [fastify.register], in order. *)
Fixpoint registersOf (evs : list (Event Plugin)) : list (Plugin * string) :=
  match evs with
  | [] => []
  | Register p prefix :: rest => (p, prefix) :: registersOf rest
  | _ :: rest => registersOf rest
  end.

(** The files reported as loaded, with their route path. *)
Fixpoint loadedFiles (evs : list (Event Plugin)) : list (string * string) :=
  match evs with
  | [] => []
  | Log info (RouteLoaded routePath filePath _) _ :: rest =>
      (filePath, routePath) :: loadedFiles rest
  | _ :: rest => loadedFiles rest
  end.

(** The files a failure diagnostic was reported for. *)
Fixpoint failedFiles (evs : list (Event Plugin)) : list string :=
  match evs with
  | [] => []
  | Log warn (RouteFile filePath) _ :: rest => filePath :: failedFiles rest
  | Log error (RouteFileError filePath _ _) _ :: rest => filePath :: failedFiles rest
  | _ :: rest => failedFiles rest
  end.

Variable importModule : string -> Thrown + DefaultExport Plugin.
Variable register : Plugin -> string -> Server -> option Thrown * Server.

(** The walk items handed one after the other to what the loop does
    with them. *)
Definition runItem (item : WalkItem) : M (Server := Server) (Plugin := Plugin) unit :=
  match item with
  | Candidate fullPath basePath =>
      loadRouteFile importModule register fullPath basePath
  | Unreadable dirPath e => directoryFailed dirPath e
  end.

Fixpoint runItems (items : list WalkItem) : M (Server := Server) (Plugin := Plugin) unit :=
  match items with
  | [] => ret tt
  | item :: rest => bind (runItem item) (fun _ => runItems rest)
  end.

(** A candidate's pipeline from a given server: whether it ends in a
    registration, and the server it leaves. *)
Definition pipelineOutcome (c : string * string) (server : Server) : bool * Server :=
  match importModule (moduleUrl c) with
  | inr (Callable routePlugin) =>
      match register routePlugin (routePathOf c) server with
      | (None, server') => (true, server')
      | (Some _, server') => (false, server')
      end
  | _ => (false, server)
  end.


(** What one candidate's pipeline adds to the trace, from a given
    server. *)
Definition pipelineEvents (c : string * string) (server : Server)
  : list (Event Plugin) :=
  Import (moduleUrl c) ::
  match importModule (moduleUrl c) with
  | inl e =>
      [Log error (RouteFileError (fst c) (errorName e) (errorMessage e))
         ("Failed to load route from " ++ fst c)]
  | inr (Callable routePlugin) =>
      Register routePlugin (routePathOf c) ::
      match fst (register routePlugin (routePathOf c) server) with
      | None =>
          [Log info (RouteLoaded (routePathOf c) (fst c) (snd c))
             ("✓ Loaded route: " ++ routePathOf c)]
      | Some e =>
          [Log error (RouteFileError (fst c) (errorName e) (errorMessage e))
             ("Failed to load route from " ++ fst c)]
      end
  | inr _ =>
      [Log warn (RouteFile (fst c))
         "Route file does not export a valid plugin function"]
  end.

Definition itemEvents (item : WalkItem) (server : Server) : list (Event Plugin) :=
  match item with
  | Candidate fullPath basePath => pipelineEvents (fullPath, basePath) server
  | Unreadable dirPath e =>
      [Log error (DirectoryError dirPath (errorName e) (errorMessage e))
         ("Error loading routes from directory " ++ dirPath)]
  end.

Definition itemServer (item : WalkItem) (server : Server) : Server :=
  match item with
  | Candidate fullPath basePath => snd (pipelineOutcome (fullPath, basePath) server)
  | Unreadable _ _ => server
  end.

(** The server a sequence of items leaves. *)
Fixpoint runServer (items : list WalkItem) (server : Server) : Server :=
  match items with
  | [] => server
  | item :: rest => runServer rest (itemServer item server)
  end.

(** The trace a sequence of items leaves. *)
Fixpoint runEvents (items : list WalkItem) (server : Server) : list (Event Plugin) :=
  match items with
  | [] => []
  | item :: rest => itemEvents item server ++ runEvents rest (itemServer item server)
  end.

(** The registrations a sequence of candidates asks for: one for each
    module whose default export is callable. *)
Fixpoint plannedRegistrations (cs : list (string * string)) : list (Plugin * string) :=
  match cs with
  | [] => []
  | c :: rest =>
      match importModule (moduleUrl c) with
      | inr (Callable routePlugin) =>
          (routePlugin, routePathOf c) :: plannedRegistrations rest
      | _ => plannedRegistrations rest
      end
  end.

End Observations.

(** ** The awaited registration of [loadRoutes] *)

Section Bootstrap.

Context {Server Plugin : Type}.
Variable importModule : string -> Thrown + DefaultExport Plugin.
Variable register : Plugin -> string -> Server -> option Thrown * Server.

(** The error the server keeps from a rejected registration, if it keeps
    one. *)
Variable pendingError : Server -> option Thrown.


End Bootstrap.

(** ** A server with a registry of unique keys *)

Module Strict.

Inductive Method : Type := GET | POST | PUT | DELETE.

Definition method_eqb (a b : Method) : bool :=
  match a, b with
  | GET, GET | POST, POST | PUT, PUT | DELETE, DELETE => true
  | _, _ => false
  end.

(** A handler-registration unit: the routes it declares, in order, or a
    unit that throws on being run. *)
Inductive Plugin : Type :=
| Declares (routes : list (Method * string))
| Throws (e : Thrown).

(** The keys bound so far, oldest first. *)
Definition Registry : Type := list (Method * string).

Definition bound (key : Method * string) (registry : Registry) : bool :=
  existsb (fun k => method_eqb (fst k) (fst key) && (snd k =? snd key)) registry.

Definition DuplicateRoute (key : Method * string) : Thrown :=
  ErrorObject "DuplicateRoute" (snd key).

(** Modelled from the spec: the server's registry is not part of the
    loader; its keys are (method, full pattern) pairs, they are unique,
    and binding a key that is already present is a hard error, not an
    overwrite.  The full pattern is the prefix followed by the path the
    unit declares. *)
Fixpoint declare (prefix : string) (routes : list (Method * string))
  (registry : Registry) : option Thrown * Registry :=
  match routes with
  | [] => (None, registry)
  | (method, path) :: rest =>
      let key := (method, (prefix ++ path)%string) in
      if bound key registry then (Some (DuplicateRoute key), registry)
      else declare prefix rest (registry ++ [key])
  end.

(** Running a unit against the registry. *)
Definition execute (p : Plugin) (prefix : string) (registry : Registry)
  : option Thrown * Registry :=
  match p with
  | Declares routes => declare prefix routes registry
  | Throws e => (Some e, registry)
  end.

(** The server: its registry, and the error of a rejected registration,
    which it keeps. *)
Record Server : Type := mkServer {
  registry : Registry;
  pending : option Thrown
}.

(** The host framework while it boots: awaiting a registration runs the
    unit; what the unit throws is kept by the server, and the await throws
    the error the server keeps, the new one or an earlier one.  So once a
    registration has been rejected, every later one is, and so is the
    awaited registration of the plugin they are made in. *)
Definition register (p : Plugin) (prefix : string) (server : Server)
  : option Thrown * Server :=
  let (thrown, registry') := execute p prefix (registry server) in
  let pending' :=
    match thrown with
    | Some e => Some e
    | None => pending server
    end in
  (pending', mkServer registry' pending').

Definition ERR_MODULE_NOT_FOUND : Thrown :=
  ErrorObject "Error" "Cannot find module".

(** [import] over a table of modules. *)
Fixpoint importFrom (table : list (string * DefaultExport Plugin)) (url : string)
  : Thrown + DefaultExport Plugin :=
  match table with
  | [] => inl ERR_MODULE_NOT_FOUND
  | (u, m) :: rest => if u =? url then inr m else importFrom rest url
  end.

Definition start : LoaderState Server Plugin :=
  mkLoaderState (mkServer [] None) [].

(** Two files resolving to the same key: [v1/users/index.ts] and
    [v1/users.ts] both declare GET on their own prefix. *)
Definition collidingRoutes : Node :=
  Directory
    [("v1", Directory
        [("users", Directory [("index.ts", RegularFile)]);
         ("users.ts", RegularFile)])].

Definition collidingModules : list (string * DefaultExport Plugin) :=
  [("file:///app/src/routes/v1/users/index.ts", Callable (Declares [(GET, "/")]));
   ("file:///app/src/routes/v1/users.ts", Callable (Declares [(GET, "/")]))].

(** Three candidates, the second of which has no default export. *)
Definition oneBadRoutes : Node :=
  Directory
    [("v1", Directory
        [("README.md", RegularFile);
         ("health.ts", RegularFile);
         ("legacy.js", RegularFile);
         ("users", Directory [("[id].ts", RegularFile)])])].

Definition oneBadModules : list (string * DefaultExport Plugin) :=
  [("file:///app/src/routes/v1/health.ts", Callable (Declares [(GET, "/")]));
   ("file:///app/src/routes/v1/legacy.js", NoDefault);
   ("file:///app/src/routes/v1/users/[id].ts",
      Callable (Declares [(GET, "/"); (DELETE, "/")]))].




(** What a system call throws on a path that is not there. *)
Definition ENOENT (syscall path : string) : Thrown :=
  ErrorObject "Error"
    ("ENOENT: no such file or directory, " ++ syscall ++ " '" ++ path ++ "'").

End Strict.

(** ** The byte-wise order of a listing *)

(** [strcmp(a, b) <= 0] *)
Definition nameLe (a b : string) : bool := String.leb a b.



Fixpoint insertByName {A : Type} (x : string * A) (l : list (string * A))
  : list (string * A) :=
  match l with
  | [] => [x]
  | y :: rest =>
      if nameLe (fst x) (fst y) then x :: l else y :: insertByName x rest
  end.

(** Sorting by name, byte-wise. *)
Fixpoint sortByName {A : Type} (l : list (string * A)) : list (string * A) :=
  match l with
  | [] => []
  | x :: rest => insertByName x (sortByName rest)
  end.

(** What each entry of a directory gives when it is processed: what [stat]
    threw, or the items found at the entry. *)
Definition entryResults (recur : Node -> string -> string -> list WalkItem)
  (dirPath basePath : string)
  : list (string * Node) -> list (string * (Thrown + list WalkItem)) :=
  fix loop (entries : list (string * Node)) :=
    match entries with
    | [] => []
    | (name, entry) :: rest =>
        (name,
         match stat entry with
         | inl e => inl e
         | inr statInfo =>
             inr (if isDirectory statInfo then
                    recur entry (join dirPath name) (join basePath name)
                  else if isFile statInfo && isRouteFileName name then
                    [Candidate (join dirPath name) basePath]
                  else [])
         end) :: loop rest
    end.

(** The results taken one after the other, up to the first failure. *)
Fixpoint itemsUntilFailure (dirPath : string)
  (results : list (string * (Thrown + list WalkItem))) : list WalkItem :=
  match results with
  | [] => []
  | (_, inl e) :: _ => [Unreadable dirPath e]
  | (_, inr items) :: rest => items ++ itemsUntilFailure dirPath rest
  end.

(** Following the spec's words: the entries of a directory are processed
    in lexical (byte-wise) order at every level, depth first, whatever the
    order they are stored in. *)
Fixpoint lexicalWalk (dir : Node) (dirPath basePath : string) {struct dir}
  : list WalkItem :=
  match dir with
  | Directory entries =>
      itemsUntilFailure dirPath
        (sortByName (entryResults lexicalWalk dirPath basePath entries))
  | _ =>
      match readdir dirPath dir with
      | inl e => [Unreadable dirPath e]
      | inr _ => []
      end
  end.

(** ** Further notions used in the statements *)

(** [stat] returns, rather than throws, on this node. *)
Definition statSucceeds (n : Node) : bool :=
  match stat n with
  | inr _ => true
  | inl _ => false
  end.

(** Some match of [\/routes\/v\d+\/] starts somewhere in [s]. *)
Fixpoint hasVersionDir (s : string) : bool :=
  match matchVersionDir s with
  | Some _ => true
  | None =>
      match s with
      | EmptyString => false
      | String _ s' => hasVersionDir s'
      end
  end.

(** No line terminator in [s]. *)
Fixpoint lineFree (s : string) : bool :=
  match s with
  | EmptyString => true
  | String c s' => negb (isLineTerminator c) && lineFree s'
  end.

(** Only decimal digits in [s]. *)
Fixpoint allDigits (s : string) : bool :=
  match s with
  | EmptyString => true
  | String c s' => isDigit c && allDigits s'
  end.

(** A segment the callback gives back as it is and the filter keeps: not
    empty, without separator, not bracketed, not [index]. *)
Definition isPlainSegment (segment : string) : bool :=
  truthy segment && negb (occurs "/" segment) &&
  negb (isDynamicSegment segment) && negb (segment =? "index").

(** The log records of [loadRoutes]'s own [catch] clause. *)
Definition isRoutesDirError {Plugin : Type} (ev : Event Plugin) : bool :=
  match ev with
  | Log _ (RoutesDirError _ _ _) _ => true
  | _ => false
  end.

(** A path of a [.ts] or [.js] file that extends [dirPath]. *)
Definition routeFileBelow (dirPath filePath : string) : Prop :=
  String.prefix dirPath filePath = true /\
  (endsWith ".ts" filePath = true \/ endsWith ".js" filePath = true).

(** An entry the loop body does nothing with: neither a directory nor a
    regular file, a regular file whose name is not a route file name, or a
    directory with nothing in it. *)
Definition isIgnoredEntry (entry : string * Node) : bool :=
  match snd entry with
  | OtherEntry => true
  | RegularFile => negb (isRouteFileName (fst entry))
  | Directory [] => true
  | _ => false
  end.

(** * Properties *)

(** ** Strings *)

Lemma append_empty_r (s : string) : (s ++ "")%string = s.
Proof. induction s as [|c s IH]; simpl; [reflexivity | now rewrite IH]. Qed.

Lemma append_assoc (a b c : string) :
  ((a ++ b) ++ c)%string = (a ++ (b ++ c))%string.
Proof. induction a as [|x a IH]; simpl; [reflexivity | now rewrite IH]. Qed.

Lemma occurs_append (c : ascii) (a b : string) :
  occurs c (a ++ b) = occurs c a || occurs c b.
Proof.
  induction a as [|x a IH]; simpl; [reflexivity|].
  rewrite IH. now rewrite orb_assoc.
Qed.

Lemma occurs_substring (c : ascii) (s : string) :
  forall n m, occurs c (substring n m s) = true -> occurs c s = true.
Proof.
  induction s as [|x s IH]; intros n m H.
  - destruct n, m; simpl in H; discriminate.
  - destruct n as [|n].
    + destruct m as [|m]; simpl in H; [discriminate|].
      apply orb_true_iff in H. simpl. apply orb_true_iff.
      destruct H as [H|H]; [now left | right; eauto].
    + simpl in H. simpl. apply orb_true_iff. right; eauto.
Qed.

Lemma substring_0_append (a b : string) :
  substring 0 (String.length a) (a ++ b) = a.
Proof.
  induction a as [|x a IH]; simpl.
  - destruct b; reflexivity.
  - now rewrite IH.
Qed.

Lemma length_append (a b : string) :
  String.length (a ++ b) = String.length a + String.length b.
Proof. induction a as [|x a IH]; simpl; [reflexivity | now rewrite IH]. Qed.

Lemma endsWith_spec (p s : string) :
  endsWith p s = true <-> exists a, s = (a ++ p)%string.
Proof.
  induction s as [|c s IH]; cbn [endsWith].
  - rewrite String.eqb_eq. split.
    + intros ->. now exists "".
    + intros [a H]. destruct a; simpl in H; [now symmetry | discriminate].
  - rewrite orb_true_iff, String.eqb_eq, IH. split.
    + intros [H | [a H]].
      * exists "". now rewrite <- H.
      * exists (String c a). simpl. now rewrite H.
    + intros [a H]. destruct a as [|x a]; simpl in H.
      * left. exact H.
      * right. exists a. now inversion H.
Qed.

Lemma split_not_nil (sep : ascii) (s : string) : split sep s <> [].
Proof.
  induction s as [|c s IH]; simpl; [discriminate|].
  destruct (Ascii.eqb c sep); [discriminate|].
  destruct (split sep s); discriminate.
Qed.

Lemma split_sep_free (sep : ascii) (s : string) :
  Forall (fun seg => occurs sep seg = false) (split sep s).
Proof.
  induction s as [|c s IH]; simpl.
  - constructor; [reflexivity | constructor].
  - destruct (Ascii.eqb c sep) eqn:E.
    + constructor; [reflexivity | exact IH].
    + destruct (split sep s) as [|seg segs]; inversion IH; subst;
        constructor; simpl; try rewrite E; auto.
Qed.

Lemma split_append_sep (sep : ascii) (a rest : string) :
  occurs sep a = false ->
  split sep (a ++ String sep rest) = a :: split sep rest.
Proof.
  induction a as [|c a IH]; simpl; intros H.
  - now rewrite Ascii.eqb_refl.
  - apply orb_false_iff in H. destruct H as [Hc Ha].
    rewrite Hc, (IH Ha). reflexivity.
Qed.

Lemma split_no_sep (sep : ascii) (a : string) :
  occurs sep a = false -> split sep a = [a].
Proof.
  induction a as [|c a IH]; simpl; intros H; [reflexivity|].
  apply orb_false_iff in H. destruct H as [Hc Ha].
  now rewrite Hc, (IH Ha).
Qed.

(** Splitting what [join] built gives the parts back. *)
Lemma split_concat (sep : ascii) (l : list string) :
  l <> [] ->
  Forall (fun seg => occurs sep seg = false) l ->
  split sep (String.concat (String sep "") l) = l.
Proof.
  induction l as [|a l IH]; intros Hne Hall; [congruence|].
  inversion Hall as [|? ? Ha Hl]; subst.
  destruct l as [|b l].
  - simpl. now apply split_no_sep.
  - change (String.concat (String sep "") (a :: b :: l))
      with (a ++ String sep "" ++ String.concat (String sep "") (b :: l))%string.
    simpl append at 2.
    rewrite (split_append_sep _ _ _ Ha). f_equal.
    apply IH; [discriminate | exact Hl].
Qed.

Lemma filter_all_true {A} (f : A -> bool) (l : list A) :
  Forall (fun x => f x = true) l -> filter f l = l.
Proof.
  induction 1 as [|x l Hx _ IH]; simpl; [reflexivity|].
  now rewrite Hx, IH.
Qed.

Lemma filter_truthy_all (l : list string) :
  Forall (fun x => truthy x = true) (filter truthy l).
Proof.
  apply Forall_forall. intros x Hx. now apply filter_In in Hx.
Qed.

(** ** The two replacements, on examples *)

(** The match runs to the last version directory of the line. *)
Example stripVersionPrefix_last_version_dir :
  stripVersionPrefix "/srv/routes/v1/x/routes/v22/y.ts" = "y.ts".
Proof. reflexivity. Qed.

(** [v] has to be followed by a digit. *)
Example stripVersionPrefix_needs_digits :
  stripVersionPrefix "/srv/routes/vnext/y.ts" = "/srv/routes/vnext/y.ts".
Proof. reflexivity. Qed.

(** [.*] does not cross a line feed: what is before it stays. *)
Example stripVersionPrefix_stays_on_one_line :
  stripVersionPrefix ("a" ++ String (ascii_of_nat 10) "b/routes/v1/c") =
  ("a" ++ String (ascii_of_nat 10) "c")%string.
Proof. reflexivity. Qed.

(** The extension is removed at the end of the path only, and once. *)
Example stripExtension_at_the_end_only :
  stripExtension "a.ts.bak" = "a.ts.bak" /\ stripExtension "a.js.ts" = "a.js".
Proof. split; reflexivity. Qed.

(** ** The callback of [determineRoutePath] *)

Lemma slice_1_m1_bracket (inner : string) :
  slice_1_m1 ("[" ++ inner ++ "]") = inner.
Proof.
  unfold slice_1_m1. cbn [append String.length substring].
  rewrite length_append. cbn [String.length].
  replace (S (String.length inner + 1) - 2) with (String.length inner) by lia.
  apply substring_0_append.
Qed.

Lemma isDynamicSegment_spec (segment : string) :
  isDynamicSegment segment = true <->
  exists inner, segment = ("[" ++ inner ++ "]")%string.
Proof.
  unfold isDynamicSegment, startsWith. split.
  - intros H. apply andb_true_iff in H. destruct H as [Hp He].
    destruct segment as [|c rest]; [discriminate|].
    cbn [prefix] in Hp. destruct (ascii_dec "[" c) as [<-|]; [|discriminate].
    cbn [endsWith] in He. apply orb_true_iff in He.
    destruct He as [He|He]; [apply String.eqb_eq in He; discriminate|].
    apply endsWith_spec in He. destruct He as [inner ->].
    now exists inner.
  - intros [inner ->]. apply andb_true_iff. split.
    + cbn [append prefix]. destruct (ascii_dec "[" "["); [|congruence].
      now destruct (inner ++ "]")%string.
    + apply endsWith_spec. exists (String "[" inner). reflexivity.
Qed.

Lemma mapSegment_bracket (inner : string) :
  mapSegment ("[" ++ inner ++ "]") = (":" ++ inner)%string.
Proof.
  unfold mapSegment.
  replace (isDynamicSegment ("[" ++ inner ++ "]")) with true
    by (symmetry; apply isDynamicSegment_spec; now exists inner).
  now rewrite slice_1_m1_bracket.
Qed.

Lemma mapSegment_not_index (segment : string) : mapSegment segment <> "index".
Proof.
  unfold mapSegment. destruct (isDynamicSegment segment); [discriminate|].
  destruct (segment =? "index") eqn:E; [discriminate|].
  now apply String.eqb_neq.
Qed.

Lemma mapSegment_sep_free (segment : string) :
  occurs "/" segment = false -> occurs "/" (mapSegment segment) = false.
Proof.
  intros H. unfold mapSegment.
  destruct (isDynamicSegment segment).
  - cbn [append occurs]. apply orb_false_iff. split; [reflexivity|].
    unfold slice_1_m1.
    destruct (occurs "/" (substring 1 (String.length segment - 2) segment)) eqn:E;
      [|reflexivity].
    apply occurs_substring in E. congruence.
  - destruct (segment =? "index"); [reflexivity | exact H].
Qed.

Lemma endsWith_last (c : ascii) (s : string) :
  endsWith (String c "") s = true <->
  String.get (String.length s - 1) s = Some c.
Proof.
  induction s as [|x s IH]; cbn [endsWith String.length].
  - simpl. split; discriminate.
  - destruct s as [|y s].
    + simpl. destruct (Ascii.eqb_spec x c) as [->|n]; simpl.
      * split; reflexivity.
      * split; [discriminate | intros H; inversion H; congruence].
    + replace (String x (String y s) =? String c "") with false.
      * rewrite orb_false_l, IH. cbn [String.length].
        replace (S (S (String.length s)) - 1) with (S (String.length s)) by lia.
        replace (S (String.length s) - 1) with (String.length s) by lia.
        reflexivity.
      * symmetry. apply String.eqb_neq. discriminate.
Qed.

Lemma startsWith_first (c : ascii) (s : string) :
  startsWith (String c "") s = true <-> String.get 0 s = Some c.
Proof.
  unfold startsWith. destruct s as [|x s]; cbn [prefix String.get].
  - split; discriminate.
  - destruct (ascii_dec c x) as [->|n].
    + split; [reflexivity | now destruct s].
    + split; [discriminate | intros H; inversion H; congruence].
Qed.

(** ** The segments of the produced pattern *)

Lemma mapped_segments_sep_free (s : string) :
  Forall (fun seg => occurs "/" seg = false)
    (filter truthy (map mapSegment (split "/" s))).
Proof.
  apply Forall_forall. intros x Hx.
  apply filter_In in Hx. destruct Hx as [Hx _].
  apply in_map_iff in Hx. destruct Hx as [seg [<- Hseg]].
  apply mapSegment_sep_free.
  pose proof (split_sep_free "/" s) as Hall.
  rewrite Forall_forall in Hall. now apply Hall.
Qed.

Lemma concat_no_leading_sep (l : list string) :
  Forall (fun seg => truthy seg = true) l ->
  Forall (fun seg => occurs "/" seg = false) l ->
  startsWith "/" (String.concat "/" l) = false.
Proof.
  intros Ht Hs. destruct l as [|a l]; [reflexivity|].
  inversion Ht as [|? ? Ha _]; inversion Hs as [|? ? Hsa _]; subst.
  destruct a as [|c a]; [discriminate|].
  cbn [occurs] in Hsa. apply orb_false_iff in Hsa. destruct Hsa as [Hc _].
  apply Ascii.eqb_neq in Hc.
  unfold startsWith.
  destruct l as [|b l]; cbn [String.concat append prefix];
    destruct (ascii_dec "/" c); congruence.
Qed.

(** On a POSIX host the guard before the final [return] always adds the
    slash. *)
Lemma determineRoutePath_eq (filePath basePath : string) :
  determineRoutePath filePath basePath =
  ("/" ++ String.concat "/"
            (filter truthy (map mapSegment (sourceSegments filePath))))%string.
Proof.
  unfold determineRoutePath, sourceSegments, path_sep.
  rewrite concat_no_leading_sep;
    [reflexivity | apply filter_truthy_all | apply mapped_segments_sep_free].
Qed.

Lemma patternSegments_slash_concat (l : list string) :
  Forall (fun seg => truthy seg = true) l ->
  Forall (fun seg => occurs "/" seg = false) l ->
  patternSegments ("/" ++ String.concat "/" l) = l.
Proof.
  intros Ht Hs. unfold patternSegments.
  destruct l as [|a l]; [reflexivity|].
  cbn [append split]. rewrite Ascii.eqb_refl.
  rewrite split_concat; [|discriminate | exact Hs].
  change (filter truthy ("" :: a :: l)) with (filter truthy (a :: l)).
  now apply filter_all_true.
Qed.

Lemma patternSegments_determineRoutePath (filePath basePath : string) :
  patternSegments (determineRoutePath filePath basePath) =
  filter truthy (map mapSegment (sourceSegments filePath)).
Proof.
  rewrite determineRoutePath_eq. unfold sourceSegments, path_sep.
  apply patternSegments_slash_concat;
    [apply filter_truthy_all | apply mapped_segments_sep_free].
Qed.

Lemma params_subsequence (segments : list string) :
  Subsequence
    (map (fun name => (":" ++ name)%string)
       (map slice_1_m1 (filter isDynamicSegment segments)))
    (filter truthy (map mapSegment segments)).
Proof.
  induction segments as [|seg segments IH]; cbn [map filter]; [constructor|].
  destruct (isDynamicSegment seg) eqn:E.
  - assert (Hm : mapSegment seg = (":" ++ slice_1_m1 seg)%string)
      by (unfold mapSegment; now rewrite E).
    rewrite Hm. cbn [map].
    change (truthy (":" ++ slice_1_m1 seg)) with true. cbv iota.
    now constructor.
  - destruct (truthy (mapSegment seg)); [now constructor | exact IH].
Qed.

Lemma dynamic_segments_names (segments : list string) :
  Forall2 (fun segment name => segment = ("[" ++ name ++ "]")%string)
    (filter isDynamicSegment segments)
    (map slice_1_m1 (filter isDynamicSegment segments)).
Proof.
  induction segments as [|seg segments IH]; cbn [filter map]; [constructor|].
  destruct (isDynamicSegment seg) eqn:E; [|exact IH].
  cbn [map]. constructor; [|exact IH].
  apply isDynamicSegment_spec in E. destruct E as [inner ->].
  now rewrite slice_1_m1_bracket.
Qed.

(** C4.  The path transformer maps the listed inputs as the table says:
    [users/index] to [/users], [users/[id]] to [/users/:id] with the
    parameter names [["id"]], [a/b/[x]/[y]] to [/a/b/:x/:y] and the root
    [index] to [/]; in general an [index] segment is elided at any depth, a
    [[name]] segment becomes [:name], any other segment is kept as it is,
    empty segments are discarded, and what is left is joined with [/]
    behind a leading [/]. *)
Theorem determineRoutePath_table_and_rule :
  (forall basePath,
     determineRoutePath "users/index" basePath = "/users" /\
     determineRoutePath "users/[id]" basePath = "/users/:id" /\
     dynamicParamNames "users/[id]" = ["id"] /\
     determineRoutePath "a/b/[x]/[y]" basePath = "/a/b/:x/:y" /\
     determineRoutePath "index" basePath = "/" /\
     determineRoutePath "/app/src/routes/v1/users/index.ts" basePath = "/users" /\
     determineRoutePath "/app/src/routes/v1/users/[id].ts" basePath = "/users/:id") /\
  (forall filePath basePath,
     determineRoutePath filePath basePath =
     ("/" ++ String.concat "/"
               (filter truthy (map mapSegment (sourceSegments filePath))))%string) /\
  mapSegment "index" = "" /\
  (forall name, mapSegment ("[" ++ name ++ "]") = (":" ++ name)%string) /\
  (forall segment,
     mapSegment segment = segment \/ segment = "index" \/
     exists name, segment = ("[" ++ name ++ "]")%string).
Proof.
  split; [intros basePath; repeat split; reflexivity|].
  split; [exact determineRoutePath_eq|].
  split; [reflexivity|].
  split; [exact mapSegment_bracket|].
  intros segment. unfold mapSegment.
  destruct (isDynamicSegment segment) eqn:E.
  - right; right. now apply isDynamicSegment_spec.
  - destruct (segment =? "index") eqn:E'.
    + right; left. now apply String.eqb_eq.
    + now left.
Qed.

(** C7.  Whatever the input path, the produced pattern starts with [/],
    none of its segments is the literal [index], and the bracket-delimited
    source segments correspond one to one, from left to right, to the
    parameter names, each of which is written after a [:] in the pattern,
    in the same order. *)
Theorem route_pattern_invariant (filePath basePath : string) :
  let urlPattern := determineRoutePath filePath basePath in
  startsWith "/" urlPattern = true /\
  ~ In "index" (split "/" urlPattern) /\
  Forall2 (fun segment name => segment = ("[" ++ name ++ "]")%string)
    (filter isDynamicSegment (sourceSegments filePath))
    (dynamicParamNames filePath) /\
  Subsequence
    (map (fun name => (":" ++ name)%string) (dynamicParamNames filePath))
    (patternSegments urlPattern).
Proof.
  cbv zeta. repeat split.
  - rewrite determineRoutePath_eq. unfold startsWith. cbn [append prefix].
    destruct (ascii_dec "/" "/"); [|congruence].
    now destruct (String.concat "/" _).
  - intros Hin.
    assert (H : In "index" (patternSegments (determineRoutePath filePath basePath)))
      by (apply filter_In; split; [exact Hin | reflexivity]).
    rewrite patternSegments_determineRoutePath in H.
    apply filter_In in H. destruct H as [H _].
    apply in_map_iff in H. destruct H as [seg [H _]].
    exact (mapSegment_not_index seg H).
  - apply dynamic_segments_names.
  - rewrite patternSegments_determineRoutePath. apply params_subsequence.
Qed.

(** C9.  [determineRoutePath] is total: every string operation it uses is
    defined on every string, so it returns a pattern for every pair of
    arguments; and the pattern does not depend on [basePath]. *)
Theorem determineRoutePath_ignores_basePath (filePath basePath1 basePath2 : string) :
  exists urlPattern,
    determineRoutePath filePath basePath1 = urlPattern /\
    determineRoutePath filePath basePath2 = urlPattern.
Proof.
  exists (determineRoutePath filePath ""). split; reflexivity.
Qed.

(** C10.  A segment is taken as dynamic exactly when its first character
    is [[] and its last character is []]; the parameter name is then the
    text in between, whatever it contains.  So [[x] and [x]] are kept as
    they are and [[[x]]] gives [:[x]]: brackets inside are not looked at. *)
Theorem dynamic_segment_classification :
  (forall segment,
     isDynamicSegment segment = true <->
     String.get 0 segment = Some "["%char /\
     String.get (String.length segment - 1) segment = Some "]"%char) /\
  (forall segment,
     mapSegment segment =
     if isDynamicSegment segment then (":" ++ slice_1_m1 segment)%string
     else if segment =? "index" then "" else segment) /\
  (forall inner, mapSegment ("[" ++ inner ++ "]") = (":" ++ inner)%string) /\
  (forall basePath,
     determineRoutePath "[x" basePath = "/[x" /\
     determineRoutePath "x]" basePath = "/x]" /\
     determineRoutePath "[[x]]" basePath = "/:[x]" /\
     determineRoutePath "[a]b[c]" basePath = "/:a]b[c").
Proof.
  split; [|split; [reflexivity | split; [exact mapSegment_bracket|]]].
  - intros segment. unfold isDynamicSegment.
    now rewrite andb_true_iff, startsWith_first, endsWith_last.
  - intros basePath. repeat split; reflexivity.
Qed.

(** ** The directory tree *)

Lemma Node_nested_ind (P : Node -> Prop) :
  P RegularFile ->
  (forall entries, Forall (fun p => P (snd p)) entries -> P (Directory entries)) ->
  (forall e, P (UnreadableDirectory e)) ->
  P OtherEntry ->
  (forall e, P (Absent e)) ->
  forall n, P n.
Proof.
  intros HFile HDir HUnreadable HOther HAbsent.
  exact (fix IH (n : Node) : P n :=
           match n with
           | RegularFile => HFile
           | Directory entries =>
               HDir entries
                 ((fix all (l : list (string * Node))
                     : Forall (fun p => P (snd p)) l :=
                     match l with
                     | [] => Forall_nil _
                     | p :: r => Forall_cons p (IH (snd p)) (all r)
                     end) entries)
           | UnreadableDirectory e => HUnreadable e
           | OtherEntry => HOther
           | Absent e => HAbsent e
           end).
Qed.

(** ** The loader as a run over the walk *)

Section LoaderFacts.

Context {Server Plugin : Type}.
Variable importModule : string -> Thrown + DefaultExport Plugin.
Variable register : Plugin -> string -> Server -> option Thrown * Server.

Local Abbreviation load := (loadRoutesFromDirectory importModule register).
Local Abbreviation state := (LoaderState Server Plugin).

(** The body of [loadRoutesFromDirectory] as the source has it: [readdir],
    then the loop, both inside the outer [try]. *)
Lemma loadRoutesFromDirectory_unfold (dir : Node) (dirPath basePath : string) :
  load dir dirPath basePath =
  tryCatch
    (bind (settle (readdir dirPath dir))
       (forEntries importModule register load dirPath basePath))
    (directoryFailed dirPath).
Proof. destruct dir; reflexivity. Qed.

Lemma loadRouteFile_eq (fullPath basePath : string) (st : state) :
  loadRouteFile importModule register fullPath basePath st =
  (inr tt,
   mkLoaderState
     (snd (pipelineOutcome importModule register (fullPath, basePath) (fastify st)))
     (events st ++ pipelineEvents importModule register (fullPath, basePath) (fastify st))).
Proof.
  cbv beta iota zeta delta
    [loadRouteFile pipelineOutcome pipelineEvents tryCatch bind awaitImport
     awaitRegister emit settle moduleUrl routePathOf ret throw fst snd
     fastify events].
  destruct (importModule ("file://" ++ fullPath)) as [e | [ | | p]];
    try (now rewrite <- app_assoc).
  destruct (register p (determineRoutePath fullPath basePath)
              (let (fastify, _) := st in fastify)) as [[e|] server'];
    now rewrite <- !app_assoc.
Qed.

Lemma runItem_eq (item : WalkItem) (st : state) :
  runItem importModule register item st =
  (inr tt,
   mkLoaderState (itemServer importModule register item (fastify st))
     (events st ++ itemEvents importModule register item (fastify st))).
Proof.
  destruct item as [fullPath basePath | dirPath e]; cbn [runItem itemServer itemEvents].
  - apply loadRouteFile_eq.
  - reflexivity.
Qed.

Lemma runItems_eq (items : list WalkItem) :
  forall st : state,
    runItems importModule register items st =
    (inr tt,
     mkLoaderState (runServer importModule register items (fastify st))
       (events st ++ runEvents importModule register items (fastify st))).
Proof.
  induction items as [|item items IH]; intros st; cbn [runItems runServer runEvents].
  - unfold ret. rewrite app_nil_r. now destruct st.
  - unfold bind. rewrite runItem_eq, IH. cbn [fastify events].
    now rewrite app_assoc.
Qed.

Lemma runItems_app (items1 items2 : list WalkItem) (st : state) :
  runItems importModule register (items1 ++ items2) st =
  runItems importModule register items2
    (snd (runItems importModule register items1 st)).
Proof.
  revert st. induction items1 as [|item items1 IH]; intros st; [reflexivity|].
  cbn [app runItems]. unfold bind. rewrite runItem_eq. apply IH.
Qed.

Lemma forEntries_runItems (dirPath basePath : string) (entries : list (string * Node)) :
  Forall
    (fun p => forall d b (st : state),
       load (snd p) d b st = runItems importModule register (walk (snd p) d b) st)
    entries ->
  forall st : state,
    tryCatch (forEntries importModule register load dirPath basePath entries)
      (directoryFailed dirPath) st =
    runItems importModule register (walkEntries walk dirPath basePath entries) st.
Proof.
  induction 1 as [|[name entry] rest Hentry _ IH]; intros st; [reflexivity|].
  cbn [forEntries walkEntries snd] in *.
  destruct (stat entry) as [e | statInfo] eqn:Hstat.
  - reflexivity.
  - rewrite runItems_app.
    unfold tryCatch, bind, settle, ret in *.
    destruct (isDirectory statInfo).
    + rewrite Hentry. rewrite runItems_eq. cbn [snd]. apply IH.
    + destruct (isFile statInfo && isRouteFileName name).
      * cbn [runItems]. unfold bind, ret.
        rewrite loadRouteFile_eq. cbn [runItem snd]. rewrite loadRouteFile_eq.
        apply IH.
      * apply IH.
Qed.

(** The recursive loader does what a left-to-right run over the items of
    the walk does. *)
Lemma loadRoutesFromDirectory_runItems (dir : Node) :
  forall (dirPath basePath : string) (st : state),
    load dir dirPath basePath st =
    runItems importModule register (walk dir dirPath basePath) st.
Proof.
  induction dir as [ | entries IH | e | | e ] using Node_nested_ind;
    intros dirPath basePath st; try reflexivity.
  cbn [loadRoutesFromDirectory walk]. now apply forEntries_runItems.
Qed.

Lemma loadRoutesFromDirectory_eq (dir : Node) (dirPath basePath : string) (st : state) :
  load dir dirPath basePath st =
  (inr tt,
   mkLoaderState
     (runServer importModule register (walk dir dirPath basePath) (fastify st))
     (events st ++
      runEvents importModule register (walk dir dirPath basePath) (fastify st))).
Proof. rewrite loadRoutesFromDirectory_runItems. apply runItems_eq. Qed.

Lemma loadRoutes_eq (cwd : string) (routes : Node) (st : state) :
  loadRoutes importModule register cwd routes st =
  (inr tt,
   mkLoaderState
     (runServer importModule register (walk routes (routesDirOf cwd) "") (fastify st))
     (events st ++
      Log info (RoutesDir (routesDirOf cwd)) "Loading routes from directory" ::
      runEvents importModule register (walk routes (routesDirOf cwd) "") (fastify st) ++
      [Log info NoFields "All routes loaded successfully"])).
Proof.
  unfold loadRoutes, tryCatch, bind, emit. fold (routesDirOf cwd).
  rewrite loadRoutesFromDirectory_eq. cbn [fastify events].
  f_equal. f_equal. rewrite <- !app_assoc. reflexivity.
Qed.

End LoaderFacts.

(** ** What a run leaves in the trace *)

Section TraceFacts.

Context {Server Plugin : Type}.
Variable importModule : string -> Thrown + DefaultExport Plugin.
Variable register : Plugin -> string -> Server -> option Thrown * Server.

Local Abbreviation state := (LoaderState Server Plugin).
Local Abbreviation trace := (list (Event Plugin)).
Local Abbreviation outcome := (pipelineOutcome importModule register).
Local Abbreviation eventsOf := (runEvents importModule register).
Local Abbreviation serverOf := (runServer importModule register).

Lemma importsOf_app (a b : trace) : importsOf (a ++ b) = importsOf a ++ importsOf b.
Proof.
  induction a as [|[l f m|url|p prefix] a IH]; cbn [app importsOf];
    [reflexivity | exact IH | now rewrite IH | exact IH].
Qed.

Lemma registersOf_app (a b : trace) :
  registersOf (a ++ b) = registersOf a ++ registersOf b.
Proof.
  induction a as [|[l f m|url|p prefix] a IH]; cbn [app registersOf];
    [reflexivity | exact IH | exact IH | now rewrite IH].
Qed.

Lemma loadedFiles_app (a b : trace) :
  loadedFiles (a ++ b) = loadedFiles a ++ loadedFiles b.
Proof.
  induction a as [|[[] [] m|url|p prefix] a IH]; cbn [app loadedFiles];
    try exact IH; [reflexivity | now rewrite IH].
Qed.

Lemma failedFiles_app (a b : trace) :
  failedFiles (a ++ b) = failedFiles a ++ failedFiles b.
Proof.
  induction a as [|[[] [] m|url|p prefix] a IH]; cbn [app failedFiles];
    try exact IH; try reflexivity; now rewrite IH.
Qed.

Lemma runEvents_app (items1 items2 : list WalkItem) (server : Server) :
  eventsOf (items1 ++ items2) server =
  eventsOf items1 server ++ eventsOf items2 (serverOf items1 server).
Proof.
  revert server. induction items1 as [|item items1 IH]; intros server;
    cbn [app runEvents runServer]; [reflexivity|].
  now rewrite IH, app_assoc.
Qed.

Lemma runServer_app (items1 items2 : list WalkItem) (server : Server) :
  serverOf (items1 ++ items2) server = serverOf items2 (serverOf items1 server).
Proof.
  revert server. induction items1 as [|item items1 IH]; intros server;
    cbn [app runServer]; [reflexivity | apply IH].
Qed.


(** Every candidate is imported, in walk order, whatever the server
    does. *)
Lemma importsOf_runEvents (items : list WalkItem) :
  forall server,
    importsOf (eventsOf items server) = map moduleUrl (candidates items).
Proof.
  induction items as [|[f b|d e] items IH]; intros server;
    cbn [runEvents itemEvents candidates map]; [reflexivity | | apply IH].
  rewrite importsOf_app, IH. f_equal.
  unfold pipelineEvents. cbn [importsOf app].
  destruct (importModule (moduleUrl (f, b))) as [e | [ | | p]]; try reflexivity.
  now destruct (fst (register p (routePathOf (f, b)) server)).
Qed.

(** [register] is called for every candidate with a callable default
    export, in walk order, whatever the earlier calls did. *)
Lemma registersOf_runEvents (items : list WalkItem) :
  forall server,
    registersOf (eventsOf items server) =
    plannedRegistrations importModule (candidates items).
Proof.
  induction items as [|[f b|d e] items IH]; intros server;
    cbn [runEvents itemEvents candidates plannedRegistrations];
    [reflexivity | | apply IH].
  rewrite registersOf_app, IH.
  unfold pipelineEvents. cbn [registersOf].
  destruct (importModule (moduleUrl (f, b))) as [e | [ | | p]]; try reflexivity.
  now destruct (fst (register p (routePathOf (f, b)) server)).
Qed.

Lemma pipelineEvents_success (c : string * string) (server server' : Server) :
  outcome c server = (true, server') ->
  loadedFiles (pipelineEvents importModule register c server) = [(fst c, routePathOf c)] /\
  failedFiles (pipelineEvents importModule register c server) = [].
Proof.
  unfold pipelineOutcome, pipelineEvents.
  destruct (importModule (moduleUrl c)) as [e | [ | | p]]; try discriminate.
  destruct (register p (routePathOf c) server) as [[e|] s]; [discriminate|].
  intros _. split; reflexivity.
Qed.

Lemma pipelineEvents_failure (c : string * string) (server server' : Server) :
  outcome c server = (false, server') ->
  loadedFiles (pipelineEvents importModule register c server) = [] /\
  failedFiles (pipelineEvents importModule register c server) = [fst c].
Proof.
  unfold pipelineOutcome, pipelineEvents.
  destruct (importModule (moduleUrl c)) as [e | [ | | p]];
    try (intros _; split; reflexivity).
  destruct (register p (routePathOf c) server) as [[e|] s]; [|discriminate].
  intros _. split; reflexivity.
Qed.



(** ** Properties of the loader *)

(** C1, at the failing input.  With no directory at the routes path, or
    one that cannot be opened, [loadRoutes] logs the failure of [readdir],
    registers nothing, reports that all routes were loaded and returns
    normally: what [readdir] threw does not reach the caller. *)
Theorem unavailable_root_is_not_raised (cwd : string) (e : Thrown) (st : state) :
  let ran :=
    (inr tt,
     mkLoaderState (fastify st)
       (events st ++
        [Log info (RoutesDir (routesDirOf cwd)) "Loading routes from directory";
         Log error
           (DirectoryError (routesDirOf cwd) (errorName e) (errorMessage e))
           ("Error loading routes from directory " ++ routesDirOf cwd);
         Log info NoFields "All routes loaded successfully"])) in
  loadRoutes importModule register cwd (Absent e) st = ran /\
  loadRoutes importModule register cwd (UnreadableDirectory e) st = ran.
Proof. split; rewrite loadRoutes_eq; reflexivity. Qed.




(** C8.  The pipelines of the candidates run one after the other, in walk
    order.  For a candidate A met before a candidate B, the trace has the
    whole pipeline of A, then what lies between them, then the whole
    pipeline of B; the pipeline of A ends with the diagnostic that the
    result of its [register] call decides, and the pipeline of B runs on
    the server that call returned, as the items in between left it.  So
    the registration of A is over, with its effect on the server and its
    result known, before anything of B starts. *)
Theorem pipelines_run_one_after_the_other
    (dir : Node) (dirPath basePath : string) (st : state)
    (items1 mid items2 : list WalkItem) (A B : string * string) :
  walk dir dirPath basePath =
    items1 ++ Candidate (fst A) (snd A) ::
    mid ++ Candidate (fst B) (snd B) :: items2 ->
  let serverA := serverOf items1 (fastify st) in
  let serverA' := snd (outcome A serverA) in
  let serverB := serverOf mid serverA' in
  let serverB' := snd (outcome B serverB) in
  loadRoutesFromDirectory importModule register dir dirPath basePath st =
    (inr tt,
     mkLoaderState (serverOf items2 serverB')
       (events st ++
        eventsOf items1 (fastify st) ++
        pipelineEvents importModule register A serverA ++
        eventsOf mid serverA' ++
        pipelineEvents importModule register B serverB ++
        eventsOf items2 serverB')) /\
  (forall routePlugin,
     importModule (moduleUrl A) = inr (Callable routePlugin) ->
     serverA' = snd (register routePlugin (routePathOf A) serverA) /\
     pipelineEvents importModule register A serverA =
       [Import (moduleUrl A);
        Register routePlugin (routePathOf A);
        match fst (register routePlugin (routePathOf A) serverA) with
        | None =>
            Log info (RouteLoaded (routePathOf A) (fst A) (snd A))
              ("✓ Loaded route: " ++ routePathOf A)
        | Some e =>
            Log error (RouteFileError (fst A) (errorName e) (errorMessage e))
              ("Failed to load route from " ++ fst A)
        end]).
Proof.
  intros Hwalk serverA serverA' serverB serverB'. split.
  - rewrite loadRoutesFromDirectory_eq, Hwalk.
    destruct A as [fA bA], B as [fB bB]. cbn [fst snd] in *.
    rewrite !runServer_app, !runEvents_app.
    cbn [runServer runEvents itemServer itemEvents].
    rewrite !runServer_app, !runEvents_app.
    cbn [runServer runEvents itemServer itemEvents].
    reflexivity.
  - intros routePlugin Himport. unfold serverA', pipelineOutcome, pipelineEvents.
    rewrite Himport.
    destruct (register routePlugin (routePathOf A) serverA) as [[e|] server'];
      split; reflexivity.
Qed.

End TraceFacts.

(** ** The awaited registration on a server that keeps a rejection *)

Section BootstrapFacts.

Context {Server Plugin : Type}.
Variable importModule : string -> Thrown + DefaultExport Plugin.
Variable register : Plugin -> string -> Server -> option Thrown * Server.
Variable pendingError : Server -> option Thrown.

Local Abbreviation state := (LoaderState Server Plugin).
Local Abbreviation eventsOf := (runEvents importModule register).
Local Abbreviation serverOf := (runServer importModule register).

(** What awaiting a registration throws is what the server keeps pending
    after it. *)
Hypothesis await_throws_pending :
  forall p prefix server,
    fst (register p prefix server) = pendingError (snd (register p prefix server)).

(** A pending error stays pending through later registrations. *)
Hypothesis pending_stays :
  forall p prefix server,
    pendingError server <> None ->
    pendingError (snd (register p prefix server)) <> None.




End BootstrapFacts.

(** ** The order of the walk *)






(** The lexical walk does not depend on the order a listing is stored
    in. *)
Example lexicalWalk_sorts :
  lexicalWalk
    (Directory [("b.ts", RegularFile); ("a", Directory [("z.ts", RegularFile)]);
                ("a.ts", RegularFile)])
    "/r" "" =
  [Candidate "/r/a/z.ts" "a"; Candidate "/r/a.ts" ""; Candidate "/r/b.ts" ""].
Proof. reflexivity. Qed.


(** ** The loader on concrete trees *)








Lemma pipelines_run_one_after_the_other_witness :
  loadRoutesFromDirectory (Strict.importFrom Strict.collidingModules) Strict.register
    Strict.collidingRoutes "/app/src/routes" "" Strict.start =
  (inr tt,
   mkLoaderState
     (Strict.mkServer [(Strict.GET, "/users/")]
        (Some (Strict.DuplicateRoute (Strict.GET, "/users/"))))
     [Import "file:///app/src/routes/v1/users/index.ts";
      Register (Strict.Declares [(Strict.GET, "/")]) "/users";
      Log info (RouteLoaded "/users" "/app/src/routes/v1/users/index.ts" "v1/users")
        "✓ Loaded route: /users";
      Import "file:///app/src/routes/v1/users.ts";
      Register (Strict.Declares [(Strict.GET, "/")]) "/users";
      Log error
        (RouteFileError "/app/src/routes/v1/users.ts" "DuplicateRoute" "/users/")
        "Failed to load route from /app/src/routes/v1/users.ts"]).
Proof.
  exact (proj1
           (pipelines_run_one_after_the_other
              (Strict.importFrom Strict.collidingModules) Strict.register
              Strict.collidingRoutes "/app/src/routes" "" Strict.start
              [] [] []
              ("/app/src/routes/v1/users/index.ts", "v1/users")
              ("/app/src/routes/v1/users.ts", "v1")
              eq_refl)).
Defined.

(** * Further properties *)

(** ** The version directory *)

Lemma isDigit_not_slash (c : ascii) : isDigit c = true -> Ascii.eqb "/" c = false.
Proof.
  intros H. destruct (Ascii.eqb_spec "/" c) as [<-|]; [discriminate H | reflexivity].
Qed.

Lemma matchVersionDir_head (c : ascii) (s : string) :
  Ascii.eqb "/" c = false -> matchVersionDir (String c s) = None.
Proof. intros H. unfold matchVersionDir. cbn [stripPrefix]. now rewrite H. Qed.

Lemma skipDigits_run (ds t : string) :
  allDigits ds = true -> skipDigits (ds ++ String "/" t) = String "/" t.
Proof.
  induction ds as [|d ds IH]; cbn [allDigits append skipDigits]; intros H.
  - reflexivity.
  - apply andb_true_iff in H. destruct H as [Hd Hds]. rewrite Hd. now apply IH.
Qed.

Lemma matchVersionDir_exact (ds rest : string) :
  allDigits ds = true -> ds <> "" ->
  matchVersionDir ("/routes/v" ++ ds ++ String "/" rest) = Some rest.
Proof.
  intros Hds Hne. destruct ds as [|d ds]; [congruence|].
  cbn [allDigits] in Hds. apply andb_true_iff in Hds. destruct Hds as [Hd Hds].
  unfold matchVersionDir. cbn [append stripPrefix Ascii.eqb Bool.eqb].
  rewrite Hd, (skipDigits_run _ _ Hds). reflexivity.
Qed.

Lemma hasVersionDir_cons (c : ascii) (s : string) :
  hasVersionDir (String c s) = false ->
  matchVersionDir (String c s) = None /\ hasVersionDir s = false.
Proof.
  cbn [hasVersionDir]. destruct (matchVersionDir (String c s)); [discriminate | auto].
Qed.

Lemma hasVersionDir_none (s : string) :
  hasVersionDir s = false -> matchDotStarVersionDir s = None.
Proof.
  induction s as [|c s IH]; intros H.
  - reflexivity.
  - destruct (hasVersionDir_cons _ _ H) as [Hm Hs].
    cbn [matchDotStarVersionDir]. rewrite Hm, (IH Hs).
    now destruct (isLineTerminator c).
Qed.

Lemma stripVersionPrefix_unfold (s : string) :
  stripVersionPrefix s =
  match matchDotStarVersionDir s with
  | Some rest => rest
  | None =>
      match s with
      | EmptyString => ""
      | String c s' => String c (stripVersionPrefix s')
      end
  end.
Proof. destruct s; reflexivity. Qed.

Lemma stripVersionPrefix_none (s : string) :
  hasVersionDir s = false -> stripVersionPrefix s = s.
Proof.
  induction s as [|c s IH]; intros H; [reflexivity|].
  rewrite stripVersionPrefix_unfold, (hasVersionDir_none _ H).
  destruct (hasVersionDir_cons _ _ H) as [_ Hs]. now rewrite (IH Hs).
Qed.

Lemma hasVersionDir_after_digits (ds rest : string) :
  allDigits ds = true ->
  hasVersionDir (String "/" rest) = false ->
  hasVersionDir (ds ++ String "/" rest) = false.
Proof.
  induction ds as [|d ds IH]; cbn [allDigits append]; intros Hds H; [exact H|].
  apply andb_true_iff in Hds. destruct Hds as [Hd Hds].
  cbn [hasVersionDir].
  rewrite (matchVersionDir_head _ _ (isDigit_not_slash _ Hd)). now apply IH.
Qed.

Lemma hasVersionDir_inside (ds rest : string) :
  allDigits ds = true ->
  hasVersionDir (String "/" rest) = false ->
  hasVersionDir ("routes/v" ++ ds ++ String "/" rest) = false.
Proof.
  intros Hds H. pose proof (hasVersionDir_after_digits _ _ Hds H) as Hd.
  cbn [append hasVersionDir].
  rewrite !matchVersionDir_head by reflexivity.
  replace (matchVersionDir (String "/" (String "v" (ds ++ String "/" rest))))
    with (@None string) by reflexivity.
  rewrite matchVersionDir_head by reflexivity.
  destruct (ds ++ String "/" rest)%string; exact Hd.
Qed.

Lemma matchDotStarVersionDir_prefix (p s r : string) :
  lineFree p = true ->
  matchDotStarVersionDir s = Some r ->
  matchDotStarVersionDir (p ++ s) = Some r.
Proof.
  induction p as [|c p IH]; cbn [lineFree append]; intros Hp Hs; [exact Hs|].
  apply andb_true_iff in Hp. destruct Hp as [Hc Hp].
  cbn [matchDotStarVersionDir].
  destruct (isLineTerminator c); [discriminate|].
  now rewrite (IH Hp Hs).
Qed.

(** The whole of the path up to and including the version directory is
    matched, and so removed. *)
Lemma stripVersionPrefix_versioned (project ds rest : string) :
  lineFree project = true ->
  allDigits ds = true -> ds <> "" ->
  hasVersionDir (String "/" rest) = false ->
  stripVersionPrefix (project ++ "/routes/v" ++ ds ++ String "/" rest) = rest.
Proof.
  intros Hp Hds Hne Hrest.
  rewrite stripVersionPrefix_unfold.
  rewrite (matchDotStarVersionDir_prefix project _ rest Hp); [reflexivity|].
  change ("/routes/v" ++ ds ++ String "/" rest)%string
    with (String "/" ("routes/v" ++ ds ++ String "/" rest)).
  cbn [matchDotStarVersionDir].
  replace (isLineTerminator "/") with false by reflexivity.
  rewrite (hasVersionDir_none _ (hasVersionDir_inside _ _ Hds Hrest)).
  now apply matchVersionDir_exact.
Qed.

(** X1.  The route path of a file below a version directory depends only
    on what follows that directory: the project path before it and the
    version number play no part, so the same file under [v1] and under [v2]
    gets the same prefix. *)
Theorem version_directory_is_dropped
    (project ds rest basePath1 basePath2 : string) :
  lineFree project = true ->
  allDigits ds = true -> ds <> "" ->
  hasVersionDir (String "/" rest) = false ->
  determineRoutePath (project ++ "/routes/v" ++ ds ++ String "/" rest) basePath1 =
  determineRoutePath rest basePath2.
Proof.
  intros Hp Hds Hne Hrest.
  unfold determineRoutePath, relativePath.
  rewrite (stripVersionPrefix_versioned _ _ _ Hp Hds Hne Hrest).
  destruct (hasVersionDir_cons _ _ Hrest) as [_ Hr].
  now rewrite (stripVersionPrefix_none _ Hr).
Qed.

Lemma version_directory_is_dropped_witness :
  determineRoutePath ("/home/app/src" ++ "/routes/v" ++ "12" ++ String "/" "users/[id].ts")
    "v12/users" =
  determineRoutePath "users/[id].ts" "".
Proof.
  apply (version_directory_is_dropped "/home/app/src" "12" "users/[id].ts");
    [reflexivity | reflexivity | discriminate | reflexivity].
Defined.

(** ** The extension *)

Lemma append_ext_not_short (x ext short : string) :
  x <> "" -> String.length short <= String.length ext ->
  (x ++ ext =? short) = false.
Proof.
  intros Hx Hlen. apply String.eqb_neq. intros H.
  apply (f_equal String.length) in H. rewrite length_append in H.
  destruct x; [congruence | cbn [String.length] in H; lia].
Qed.

Lemma stripExtension_append_ts (stem : string) :
  stripExtension (stem ++ ".ts") = stem.
Proof.
  induction stem as [|c stem IH]; [reflexivity|].
  cbn [append stripExtension].
  change (String c (stem ++ ".ts")) with (String c stem ++ ".ts")%string.
  rewrite !append_ext_not_short by (try discriminate; cbn; lia).
  cbn [orb]. now rewrite IH.
Qed.

Lemma stripExtension_append_js (stem : string) :
  stripExtension (stem ++ ".js") = stem.
Proof.
  induction stem as [|c stem IH]; [reflexivity|].
  cbn [append stripExtension].
  change (String c (stem ++ ".js")) with (String c stem ++ ".js")%string.
  rewrite !append_ext_not_short by (try discriminate; cbn; lia).
  cbn [orb]. now rewrite IH.
Qed.

(** X2.  The second replacement removes a final [.ts] or [.js], once, and
    nothing else: putting that extension back gives the path again, and a
    path with neither ending is returned as it is. *)
Theorem stripExtension_removes_the_final_extension (s : string) :
  (stripExtension s ++
   (if endsWith ".ts" s then ".ts" else if endsWith ".js" s then ".js" else ""))%string
  = s.
Proof.
  induction s as [|c s IH]; [reflexivity|].
  cbn [stripExtension endsWith].
  destruct (String c s =? ".ts") eqn:Ets.
  - apply String.eqb_eq in Ets. rewrite Ets. reflexivity.
  - destruct (String c s =? ".js") eqn:Ejs.
    + apply String.eqb_eq in Ejs. inversion Ejs; subst. reflexivity.
    + cbn [orb append]. now rewrite IH.
Qed.

Lemma fromLastDot_suffix (s e : string) :
  fromLastDot s = Some e -> exists x, s = (x ++ e)%string.
Proof.
  revert e. induction s as [|c s IH]; intros e H; [discriminate|].
  cbn [fromLastDot] in H. destruct (fromLastDot s) as [e'|].
  - inversion H; subst. destruct (IH e eq_refl) as [x ->].
    now exists (String c x).
  - destruct (Ascii.eqb c "."); [|discriminate].
    inversion H. now exists "".
Qed.

Lemma fromLastDot_append_ts (x : string) : fromLastDot (x ++ ".ts") = Some ".ts".
Proof.
  induction x as [|c x IH]; [reflexivity|].
  cbn [append fromLastDot]. now rewrite IH.
Qed.

Lemma fromLastDot_append_js (x : string) : fromLastDot (x ++ ".js") = Some ".js".
Proof.
  induction x as [|c x IH]; [reflexivity|].
  cbn [append fromLastDot]. now rewrite IH.
Qed.

Lemma extname_eq_suffix (name ext : string) :
  ext <> "" -> extname name = ext ->
  exists stem, stem <> "" /\ name = (stem ++ ext)%string.
Proof.
  intros Hne H. destruct name as [|c rest]; [cbn in H; congruence|].
  cbn [extname] in H.
  destruct (String c rest =? ".."); [congruence|].
  destruct (fromLastDot rest) as [e|] eqn:E; [|congruence].
  subst e. destruct (fromLastDot_suffix _ _ E) as [x ->].
  exists (String c x). split; [discriminate | reflexivity].
Qed.

Lemma extname_append_ts (stem : string) :
  stem <> "" -> extname (stem ++ ".ts") = ".ts".
Proof.
  intros Hne. destruct stem as [|c x]; [congruence|].
  cbn [append extname].
  change (String c (x ++ ".ts")) with (String c x ++ ".ts")%string.
  rewrite append_ext_not_short by (try discriminate; cbn; lia).
  now rewrite fromLastDot_append_ts.
Qed.

Lemma extname_append_js (stem : string) :
  stem <> "" -> extname (stem ++ ".js") = ".js".
Proof.
  intros Hne. destruct stem as [|c x]; [congruence|].
  cbn [append extname].
  change (String c (x ++ ".js")) with (String c x ++ ".js")%string.
  rewrite append_ext_not_short by (try discriminate; cbn; lia).
  now rewrite fromLastDot_append_js.
Qed.

Lemma isRouteFileName_stem (name : string) :
  isRouteFileName name = true ->
  exists stem,
    stem <> "" /\ (name = (stem ++ ".ts")%string \/ name = (stem ++ ".js")%string).
Proof.
  unfold isRouteFileName. rewrite orb_true_iff, !String.eqb_eq.
  intros [H|H]; apply extname_eq_suffix in H; try discriminate;
    destruct H as [stem [Hne ->]]; exists stem; auto.
Qed.

(** X3.  The loop takes an entry for a route file exactly when its name is
    a non-empty stem followed by [.ts] or [.js]: a file named just [.ts] is
    passed over, and so is any other extension. *)
Theorem isRouteFileName_spec (name : string) :
  isRouteFileName name = true <->
  exists stem,
    stem <> "" /\ (name = (stem ++ ".ts")%string \/ name = (stem ++ ".js")%string).
Proof.
  split; [apply isRouteFileName_stem|].
  unfold isRouteFileName. rewrite orb_true_iff, !String.eqb_eq.
  intros [stem [Hne [-> | ->]]].
  - left. now apply extname_append_ts.
  - right. now apply extname_append_js.
Qed.

(** ** From the file path to the route path *)

Lemma mapSegment_empty : mapSegment "" = "".
Proof. reflexivity. Qed.

Lemma mapped_segments_of_concat (segs : list string) :
  Forall (fun seg => occurs "/" seg = false) segs ->
  filter truthy (map mapSegment (split "/" (String.concat "/" segs))) =
  filter truthy (map mapSegment segs).
Proof.
  intros Hs. destruct segs as [|a l]; [reflexivity|].
  rewrite split_concat; [reflexivity | discriminate | exact Hs].
Qed.



Lemma mapSegment_plain (segment : string) :
  isPlainSegment segment = true -> mapSegment segment = segment.
Proof.
  unfold isPlainSegment, mapSegment. intros H.
  repeat (apply andb_true_iff in H; destruct H as [H ?]).
  destruct (isDynamicSegment segment); [discriminate|].
  destruct (segment =? "index"); [discriminate | reflexivity].
Qed.

Lemma plain_segments_kept (segs : list string) :
  Forall (fun seg => isPlainSegment seg = true) segs ->
  filter truthy (map mapSegment segs) = segs /\
  Forall (fun seg => occurs "/" seg = false) segs.
Proof.
  induction 1 as [|seg segs Hseg _ [IH1 IH2]]; [split; constructor|].
  cbn [map filter]. rewrite (mapSegment_plain _ Hseg).
  unfold isPlainSegment in Hseg.
  repeat (apply andb_true_iff in Hseg; destruct Hseg as [Hseg ?]).
  rewrite Hseg, IH1. split; [reflexivity|].
  constructor; [now apply negb_true_iff | exact IH2].
Qed.

(** X5.  A route file that is not below a [routes/vN] directory keeps its
    whole path: with plain segments, the route path of an absolute file
    path is that path without the extension. *)
Theorem file_outside_version_directory_keeps_its_path
    (ext basePath : string) (segs : list string) :
  ext = ".ts" \/ ext = ".js" ->
  Forall (fun seg => isPlainSegment seg = true) segs ->
  hasVersionDir (String "/" (String.concat "/" segs ++ ext)) = false ->
  determineRoutePath (String "/" (String.concat "/" segs ++ ext)) basePath =
  String "/" (String.concat "/" segs).
Proof.
  intros Hext Hplain Hnone.
  destruct (plain_segments_kept _ Hplain) as [Hkept Hfree].
  rewrite determineRoutePath_eq. unfold sourceSegments, relativePath, path_sep.
  rewrite (stripVersionPrefix_none _ Hnone).
  replace (stripExtension (String "/" (String.concat "/" segs ++ ext)))
    with (String "/" (String.concat "/" segs))
    by (destruct Hext as [-> | ->];
        [exact (eq_sym (stripExtension_append_ts (String "/" (String.concat "/" segs))))
        | exact (eq_sym (stripExtension_append_js (String "/" (String.concat "/" segs))))]).
  cbn [split]. rewrite Ascii.eqb_refl. cbn [map].
  rewrite mapSegment_empty. cbn [filter truthy String.eqb negb].
  rewrite (mapped_segments_of_concat _ Hfree), Hkept. reflexivity.
Qed.

Lemma file_outside_version_directory_witness :
  determineRoutePath
    (String "/" (String.concat "/" ["app"; "src"; "routes"; "health"] ++ ".ts")) "" =
  String "/" (String.concat "/" ["app"; "src"; "routes"; "health"]).
Proof.
  apply (file_outside_version_directory_keeps_its_path ".ts" ""
           ["app"; "src"; "routes"; "health"]);
    [now left | repeat constructor | reflexivity].
Defined.

(** ** The shape of the produced pattern *)

Lemma endsWith_append_nonempty (c : ascii) (a b : string) :
  b <> "" -> endsWith (String c "") (a ++ b) = endsWith (String c "") b.
Proof.
  intros Hb. induction a as [|x a IH]; [reflexivity|].
  cbn [append endsWith]. rewrite IH.
  replace (String x (a ++ b) =? String c "") with false; [reflexivity|].
  symmetry. apply String.eqb_neq. intros H. inversion H as [[Hx Hab]].
  destruct a, b; cbn in Hab; congruence.
Qed.

Lemma endsWith_absent (c : ascii) (s : string) :
  occurs c s = false -> endsWith (String c "") s = false.
Proof.
  intros H. destruct (endsWith (String c "") s) eqn:E; [|reflexivity].
  apply endsWith_spec in E. destruct E as [a ->].
  rewrite occurs_append in H. cbn [occurs] in H.
  rewrite Ascii.eqb_refl in H. cbn in H. now rewrite orb_true_r in H.
Qed.

Lemma concat_nonempty (l : list string) :
  l <> [] -> Forall (fun seg => truthy seg = true) l -> String.concat "/" l <> "".
Proof.
  intros Hne Ht. destruct l as [|a l]; [congruence|].
  inversion Ht as [|? ? Ha _]; subst.
  destruct a as [|c a]; [discriminate|].
  destruct l; cbn [String.concat append]; discriminate.
Qed.

Lemma concat_no_trailing_sep (l : list string) :
  l <> [] ->
  Forall (fun seg => truthy seg = true) l ->
  Forall (fun seg => occurs "/" seg = false) l ->
  endsWith "/" (String.concat "/" l) = false.
Proof.
  induction l as [|a l IH]; intros Hne Ht Hs; [congruence|].
  inversion Ht as [|? ? Hta Htl]; inversion Hs as [|? ? Hsa Hsl]; subst.
  destruct l as [|b l].
  - cbn [String.concat]. now apply endsWith_absent.
  - change (String.concat "/" (a :: b :: l))
      with (a ++ ("/" ++ String.concat "/" (b :: l)))%string.
    assert (Hrest : String.concat "/" (b :: l) <> "")
      by (apply concat_nonempty; [discriminate | exact Htl]).
    rewrite endsWith_append_nonempty by (cbn; discriminate).
    rewrite endsWith_append_nonempty by exact Hrest.
    apply IH; [discriminate | exact Htl | exact Hsl].
Qed.

(** X6.  The produced pattern is in normal form: it is [/] followed by its
    own non-empty segments joined with [/], so it has no empty segment
    inside, and it ends with [/] only when it is the root pattern [/]. *)
Theorem produced_pattern_is_normalised (filePath basePath : string) :
  let urlPattern := determineRoutePath filePath basePath in
  urlPattern = ("/" ++ String.concat "/" (patternSegments urlPattern))%string /\
  (urlPattern = "/" \/ endsWith "/" urlPattern = false).
Proof.
  cbv zeta. rewrite patternSegments_determineRoutePath.
  rewrite determineRoutePath_eq. split; [reflexivity|].
  pose proof (filter_truthy_all (map mapSegment (sourceSegments filePath))) as Ht.
  pose proof (mapped_segments_sep_free (relativePath filePath)) as Hs.
  fold (sourceSegments filePath) in Hs. unfold sourceSegments, path_sep in *.
  destruct (filter truthy (map mapSegment (split "/" (relativePath filePath))))
    as [|a l] eqn:E; [now left | right].
  rewrite endsWith_append_nonempty
    by (apply concat_nonempty; [discriminate | exact Ht]).
  apply concat_no_trailing_sep; [discriminate | exact Ht | exact Hs].
Qed.

(** ** The walk of one directory *)

Lemma prefix_spec (a b : string) :
  String.prefix a b = true <-> exists t, b = (a ++ t)%string.
Proof.
  revert b. induction a as [|x a IH]; intros b.
  - split; [intros _; now exists b | intros _; now destruct b].
  - destruct b as [|y b]; cbn [prefix].
    + split; [discriminate | intros [t H]; discriminate].
    + destruct (ascii_dec x y) as [<-|n].
      * rewrite IH. split; intros [t H]; exists t; cbn [append] in *; congruence.
      * split; [discriminate | intros [t H]; cbn [append] in H; congruence].
Qed.

Lemma prefix_join (dirPath name : string) :
  String.prefix dirPath (join dirPath name) = true.
Proof.
  apply prefix_spec. unfold join.
  destruct (dirPath =? "") eqn:E.
  - apply String.eqb_eq in E. subst. now exists name.
  - destruct (endsWith "/" dirPath); eexists; reflexivity.
Qed.

Lemma prefix_trans (a b c : string) :
  String.prefix a b = true -> String.prefix b c = true -> String.prefix a c = true.
Proof.
  rewrite !prefix_spec. intros [t ->] [u ->]. exists (t ++ u)%string.
  apply append_assoc.
Qed.

Lemma endsWith_join (p dirPath name : string) :
  endsWith p name = true -> endsWith p (join dirPath name) = true.
Proof.
  rewrite !endsWith_spec. intros [a ->]. unfold join.
  destruct (dirPath =? ""); [now exists a|].
  destruct (endsWith "/" dirPath).
  - exists (dirPath ++ a)%string. now rewrite append_assoc.
  - exists (dirPath ++ "/" ++ a)%string. now rewrite !append_assoc.
Qed.

Lemma routeFileBelow_join (dirPath name : string) :
  isRouteFileName name = true -> routeFileBelow dirPath (join dirPath name).
Proof.
  intros H. split; [apply prefix_join|].
  apply isRouteFileName_stem in H. destruct H as [stem [_ [-> | ->]]];
    [left | right]; apply endsWith_join; apply endsWith_spec; now exists stem.
Qed.

Lemma walk_candidates_below (dir : Node) :
  forall dirPath basePath fullPath basePath',
    In (Candidate fullPath basePath') (walk dir dirPath basePath) ->
    routeFileBelow dirPath fullPath.
Proof.
  induction dir as [ | entries IH | e | | e ] using Node_nested_ind;
    intros dirPath basePath fullPath basePath' Hin;
    try (cbn in Hin; destruct Hin as [Hin|[]]; discriminate).
  cbn [walk] in Hin.
  induction IH as [|[name entry] rest Hentry _ IHrest]; [destruct Hin|].
  cbn [walkEntries snd] in Hin, Hentry.
  destruct (stat entry) as [e|statInfo].
  - destruct Hin as [Hin|[]]; discriminate.
  - apply in_app_or in Hin. destruct Hin as [Hin|Hin]; [|now apply IHrest].
    destruct (isDirectory statInfo).
    + destruct (Hentry _ _ _ _ Hin) as [Hp He]. split; [|exact He].
      exact (prefix_trans _ _ _ (prefix_join dirPath name) Hp).
    + destruct (isFile statInfo && isRouteFileName name) eqn:E; [|destruct Hin].
      destruct Hin as [Hin|[]]. inversion Hin; subst.
      apply andb_true_iff in E. now apply routeFileBelow_join.
Qed.

Lemma walkEntries_app (dirPath basePath : string) (pre post : list (string * Node)) :
  forallb (fun p => statSucceeds (snd p)) pre = true ->
  walkEntries walk dirPath basePath (pre ++ post) =
  walkEntries walk dirPath basePath pre ++ walkEntries walk dirPath basePath post.
Proof.
  induction pre as [|[name entry] pre IH]; intros H; [reflexivity|].
  cbn [forallb snd] in H. apply andb_true_iff in H. destruct H as [Hs Hpre].
  cbn [app walkEntries]. unfold statSucceeds in Hs.
  destruct (stat entry) as [e|statInfo]; [discriminate|].
  now rewrite (IH Hpre), app_assoc.
Qed.

Lemma walkEntries_ignored (dirPath basePath : string)
    (pre post : list (string * Node)) (entry : string * Node) :
  isIgnoredEntry entry = true ->
  walkEntries walk dirPath basePath (pre ++ entry :: post) =
  walkEntries walk dirPath basePath (pre ++ post).
Proof.
  intros Hig. induction pre as [|[name n] pre IH].
  - destruct entry as [name n]. unfold isIgnoredEntry in Hig. cbn [fst snd] in Hig.
    cbn [app walkEntries].
    destruct n as [ | [|x l] | e | | e ]; try discriminate; cbn [stat isDirectory isFile].
    + apply negb_true_iff in Hig. now rewrite Hig.
    + reflexivity.
    + reflexivity.
  - cbn [app walkEntries]. now rewrite IH.
Qed.

Section LoaderComposition.

Context {Server Plugin : Type}.
Variable importModule : string -> Thrown + DefaultExport Plugin.
Variable register : Plugin -> string -> Server -> option Thrown * Server.

Local Abbreviation load := (loadRoutesFromDirectory importModule register).
Local Abbreviation run := (runItems importModule register).
Local Abbreviation state := (LoaderState Server Plugin).
Local Abbreviation eventsOf := (runEvents importModule register).
Local Abbreviation serverOf := (runServer importModule register).

Lemma load_Directory (entries : list (string * Node)) (dirPath basePath : string)
    (st : state) :
  load (Directory entries) dirPath basePath st =
  run (walkEntries walk dirPath basePath entries) st.
Proof. now rewrite loadRoutesFromDirectory_runItems. Qed.

Lemma load_after_prefix
    (pre rest : list (string * Node)) (dirPath basePath : string) (st : state) :
  forallb (fun p => statSucceeds (snd p)) pre = true ->
  load (Directory (pre ++ rest)) dirPath basePath st =
  run (walkEntries walk dirPath basePath rest)
    (snd (load (Directory pre) dirPath basePath st)).
Proof.
  intros Hpre. rewrite !load_Directory, (walkEntries_app _ _ _ _ Hpre).
  apply runItems_app.
Qed.

(** X7.  Reading a directory entry by entry composes: when [stat] succeeds
    on every entry of the first part of a listing, loading the whole
    listing is loading the first part and then, from the state that leaves,
    the rest. *)
Theorem directory_listing_composes
    (pre post : list (string * Node)) (dirPath basePath : string) (st : state) :
  forallb (fun p => statSucceeds (snd p)) pre = true ->
  load (Directory (pre ++ post)) dirPath basePath st =
  load (Directory post) dirPath basePath
    (snd (load (Directory pre) dirPath basePath st)).
Proof.
  intros Hpre. rewrite (load_after_prefix _ _ _ _ _ Hpre). symmetry. apply load_Directory.
Qed.

(** X8.  The walk is depth first: a subdirectory met in a listing is
    loaded completely, with its name added to both the directory path and the
    base path, before the entries listed after it are looked at. *)
Theorem subdirectory_is_loaded_in_place
    (pre post : list (string * Node)) (name : string) (sub : Node)
    (dirPath basePath : string) (st : state) :
  forallb (fun p => statSucceeds (snd p)) pre = true ->
  stat sub = inr StatDirectory ->
  load (Directory (pre ++ (name, sub) :: post)) dirPath basePath st =
  load (Directory post) dirPath basePath
    (snd (load sub (join dirPath name) (join basePath name)
            (snd (load (Directory pre) dirPath basePath st)))).
Proof.
  intros Hpre Hsub. rewrite (load_after_prefix _ _ _ _ _ Hpre).
  cbn [walkEntries]. rewrite Hsub. cbn [isDirectory].
  rewrite runItems_app, <- loadRoutesFromDirectory_runItems.
  symmetry. apply load_Directory.
Qed.

(** X9.  A subdirectory that cannot be read costs one error record, which
    names the subdirectory, and nothing else: the server is left as it was
    and the entries listed after it are loaded as usual. *)
Theorem unreadable_subdirectory_is_skipped
    (pre post : list (string * Node)) (name : string) (e : Thrown)
    (dirPath basePath : string) (st : state) :
  forallb (fun p => statSucceeds (snd p)) pre = true ->
  let st1 := snd (load (Directory pre) dirPath basePath st) in
  load (Directory (pre ++ (name, UnreadableDirectory e) :: post)) dirPath basePath st =
  load (Directory post) dirPath basePath
    (mkLoaderState (fastify st1)
       (events st1 ++
        [Log error
           (DirectoryError (join dirPath name) (errorName e) (errorMessage e))
           ("Error loading routes from directory " ++ join dirPath name)])).
Proof.
  intros Hpre st1. rewrite (load_after_prefix _ _ _ _ _ Hpre). fold st1.
  cbn [walkEntries stat isDirectory walk readdir app runItems runItem].
  unfold bind, directoryFailed, emit. symmetry. apply load_Directory.
Qed.

(** X10.  When [stat] throws on an entry, the reading of that directory
    stops there: the failure is logged against the directory being read, the
    entries listed after the failing one are never looked at, and the call
    returns normally, so that the walk goes on in the parent directory. *)
Theorem stat_failure_ends_the_directory
    (pre post : list (string * Node)) (name : string) (e : Thrown)
    (dirPath basePath : string) (st : state) :
  forallb (fun p => statSucceeds (snd p)) pre = true ->
  let st1 := snd (load (Directory pre) dirPath basePath st) in
  load (Directory (pre ++ (name, Absent e) :: post)) dirPath basePath st =
  (inr tt,
   mkLoaderState (fastify st1)
     (events st1 ++
      [Log error (DirectoryError dirPath (errorName e) (errorMessage e))
         ("Error loading routes from directory " ++ dirPath)])).
Proof.
  intros Hpre st1. now rewrite (load_after_prefix _ _ _ _ _ Hpre).
Qed.

(** X11.  Entries the loop has no branch for change nothing: a special
    file, a regular file whose name is not a route file name, or an empty
    subdirectory can be taken out of a listing, wherever it stands, without
    changing the run. *)
Theorem ignored_entries_change_nothing
    (pre post : list (string * Node)) (entry : string * Node)
    (dirPath basePath : string) (st : state) :
  isIgnoredEntry entry = true ->
  load (Directory (pre ++ entry :: post)) dirPath basePath st =
  load (Directory (pre ++ post)) dirPath basePath st.
Proof.
  intros Hig. now rewrite !load_Directory, (walkEntries_ignored _ _ _ _ _ Hig).
Qed.

Lemma runEvents_no_RoutesDirError (items : list WalkItem) :
  forall server, existsb isRoutesDirError (eventsOf items server) = false.
Proof.
  induction items as [|[f b|d e] items IH]; intros server;
    cbn [runEvents itemEvents]; [reflexivity | | apply IH].
  rewrite existsb_app, IH, orb_false_r.
  unfold pipelineEvents.
  destruct (importModule (moduleUrl (f, b))) as [e | [ | | p]]; try reflexivity.
  now destruct (fst (register p (routePathOf (f, b)) server)).
Qed.

(** X12.  [loadRoutes] returns normally on every directory tree, with
    every table of modules and every server: its trace starts with the
    record that loading begins and ends with the record that all routes
    were loaded, and the record of its own [catch] clause is never
    written. *)
Theorem loadRoutes_always_completes (cwd : string) (routes : Node) (st : state) :
  exists server' evs,
    loadRoutes importModule register cwd routes st =
      (inr tt,
       mkLoaderState server'
         (events st ++
          Log info (RoutesDir (routesDirOf cwd)) "Loading routes from directory" ::
          evs ++ [Log info NoFields "All routes loaded successfully"])) /\
    existsb isRoutesDirError evs = false.
Proof.
  do 2 eexists. split; [apply loadRoutes_eq | apply runEvents_no_RoutesDirError].
Qed.

Lemma diagnostics_count (items : list WalkItem) :
  forall server,
    List.length (loadedFiles (eventsOf items server)) +
    List.length (failedFiles (eventsOf items server)) =
    List.length (candidates items).
Proof.
  induction items as [|[f b|d e] items IH]; intros server;
    cbn [runEvents itemEvents itemServer candidates]; [reflexivity | | apply IH].
  rewrite loadedFiles_app, failedFiles_app, !length_app.
  specialize (IH (snd (pipelineOutcome importModule register (f, b) server))).
  destruct (pipelineOutcome importModule register (f, b) server) as [[|] s] eqn:E.
  - destruct (pipelineEvents_success _ _ _ _ _ E) as [-> ->].
    cbn [List.length snd] in *. lia.
  - destruct (pipelineEvents_failure _ _ _ _ _ E) as [-> ->].
    cbn [List.length snd] in *. lia.
Qed.

Lemma diagnostics_files (items : list WalkItem) :
  forall server f,
    In f (map fst (loadedFiles (eventsOf items server))) \/
    In f (failedFiles (eventsOf items server)) <->
    In f (map fst (candidates items)).
Proof.
  induction items as [|[f0 b|d e] items IH]; intros server f;
    cbn [runEvents itemEvents itemServer candidates map]; [tauto | | apply IH].
  rewrite loadedFiles_app, failedFiles_app, map_app, !in_app_iff.
  specialize (IH (snd (pipelineOutcome importModule register (f0, b) server)) f).
  destruct (pipelineOutcome importModule register (f0, b) server) as [[|] s] eqn:E.
  - destruct (pipelineEvents_success _ _ _ _ _ E) as [-> ->].
    cbn [map fst snd In] in *. tauto.
  - destruct (pipelineEvents_failure _ _ _ _ _ E) as [-> ->].
    cbn [map fst snd In] in *. tauto.
Qed.

(** X13.  Every candidate file ends in exactly one diagnostic: the files
    reported as loaded and the files reported as failed are, together, the
    candidates of the walk, and their numbers add up to the number of
    candidates. *)
Theorem every_candidate_gets_one_diagnostic (cwd : string) (routes : Node) (st : state) :
  exists server' evs,
    loadRoutes importModule register cwd routes st =
      (inr tt, mkLoaderState server' (events st ++ evs)) /\
    List.length (loadedFiles evs) + List.length (failedFiles evs) =
      List.length (candidates (walk routes (routesDirOf cwd) "")) /\
    forall f,
      In f (map fst (loadedFiles evs)) \/ In f (failedFiles evs) <->
      In f (map fst (candidates (walk routes (routesDirOf cwd) ""))).
Proof.
  do 2 eexists. split; [apply loadRoutes_eq|].
  cbn [loadedFiles failedFiles].
  rewrite loadedFiles_app, failedFiles_app. cbn [loadedFiles failedFiles].
  rewrite !app_nil_r. split; [apply diagnostics_count | apply diagnostics_files].
Qed.

Lemma candidates_in_walk (items : list WalkItem) (c : string * string) :
  In c (candidates items) -> In (Candidate (fst c) (snd c)) items.
Proof.
  induction items as [|[f b|d e] items IH]; cbn [candidates In]; [tauto | | tauto].
  intros [<- | H]; [now left | right; auto].
Qed.

(** X14.  Nothing is imported but route files of the routes directory:
    every URL given to [import] is [file://] followed by a path that extends
    the path of the routes directory and ends in [.ts] or [.js]. *)
Theorem imports_are_route_files_below_the_root (cwd : string) (routes : Node) (st : state) :
  exists server' evs,
    loadRoutes importModule register cwd routes st =
      (inr tt, mkLoaderState server' (events st ++ evs)) /\
    Forall
      (fun url =>
         exists filePath,
           url = ("file://" ++ filePath)%string /\
           routeFileBelow (routesDirOf cwd) filePath)
      (importsOf evs).
Proof.
  do 2 eexists. split; [apply loadRoutes_eq|].
  cbn [importsOf]. rewrite importsOf_app, importsOf_runEvents.
  cbn [importsOf]. rewrite app_nil_r.
  apply Forall_forall. intros url Hin.
  apply in_map_iff in Hin. destruct Hin as [c [<- Hc]].
  exists (fst c). split; [reflexivity|].
  apply candidates_in_walk in Hc.
  exact (walk_candidates_below _ _ _ _ _ Hc).
Qed.

Lemma runServer_without_registrations (items : list WalkItem) :
  forall server,
    plannedRegistrations importModule (candidates items) = [] ->
    serverOf items server = server.
Proof.
  induction items as [|[f b|d e] items IH]; intros server H;
    cbn [candidates plannedRegistrations runServer itemServer] in *;
    [reflexivity | | now apply IH].
  unfold pipelineOutcome.
  destruct (importModule (moduleUrl (f, b))) as [e | [ | | p]];
    try discriminate; cbn [snd]; now apply IH.
Qed.

(** X15.  The server is touched through [register] only: when no
    candidate module has a callable default export, [register] is never
    called and the server comes out of [loadRoutes] as it went in. *)
Theorem server_changes_only_through_register (cwd : string) (routes : Node) (st : state) :
  plannedRegistrations importModule (candidates (walk routes (routesDirOf cwd) "")) = [] ->
  exists evs,
    loadRoutes importModule register cwd routes st =
      (inr tt, mkLoaderState (fastify st) (events st ++ evs)) /\
    registersOf evs = [].
Proof.
  intros H. eexists. split.
  - rewrite loadRoutes_eq, (runServer_without_registrations _ _ H). reflexivity.
  - cbn [registersOf]. rewrite registersOf_app, registersOf_runEvents, H. reflexivity.
Qed.

End LoaderComposition.

(** ** The composition properties on concrete listings *)

Lemma directory_listing_composes_witness :
  loadRoutesFromDirectory (Strict.importFrom Strict.oneBadModules) Strict.register
    (Directory ([("health.ts", RegularFile)] ++ [("legacy.js", RegularFile)]))
    "/app/src/routes/v1" "v1" Strict.start =
  loadRoutesFromDirectory (Strict.importFrom Strict.oneBadModules) Strict.register
    (Directory [("legacy.js", RegularFile)]) "/app/src/routes/v1" "v1"
    (snd (loadRoutesFromDirectory (Strict.importFrom Strict.oneBadModules)
            Strict.register (Directory [("health.ts", RegularFile)])
            "/app/src/routes/v1" "v1" Strict.start)).
Proof.
  exact (directory_listing_composes
           (Strict.importFrom Strict.oneBadModules) Strict.register
           [("health.ts", RegularFile)] [("legacy.js", RegularFile)]
           "/app/src/routes/v1" "v1" Strict.start eq_refl).
Defined.

Lemma subdirectory_is_loaded_in_place_witness :
  loadRoutesFromDirectory (Strict.importFrom Strict.oneBadModules) Strict.register
    (Directory
       ([("health.ts", RegularFile); ("legacy.js", RegularFile)] ++
        ("users", Directory [("[id].ts", RegularFile)]) ::
        [("version.ts", RegularFile)]))
    "/app/src/routes/v1" "v1" Strict.start =
  loadRoutesFromDirectory (Strict.importFrom Strict.oneBadModules) Strict.register
    (Directory [("version.ts", RegularFile)]) "/app/src/routes/v1" "v1"
    (snd (loadRoutesFromDirectory (Strict.importFrom Strict.oneBadModules)
            Strict.register (Directory [("[id].ts", RegularFile)])
            (join "/app/src/routes/v1" "users") (join "v1" "users")
            (snd (loadRoutesFromDirectory (Strict.importFrom Strict.oneBadModules)
                    Strict.register
                    (Directory [("health.ts", RegularFile); ("legacy.js", RegularFile)])
                    "/app/src/routes/v1" "v1" Strict.start)))).
Proof.
  exact (subdirectory_is_loaded_in_place
           (Strict.importFrom Strict.oneBadModules) Strict.register
           [("health.ts", RegularFile); ("legacy.js", RegularFile)]
           [("version.ts", RegularFile)]
           "users" (Directory [("[id].ts", RegularFile)])
           "/app/src/routes/v1" "v1" Strict.start eq_refl eq_refl).
Defined.

Lemma unreadable_subdirectory_is_skipped_witness :
  let st1 :=
    snd (loadRoutesFromDirectory (Strict.importFrom Strict.oneBadModules)
           Strict.register
           (Directory [("health.ts", RegularFile); ("legacy.js", RegularFile)])
           "/app/src/routes/v1" "v1" Strict.start) in
  loadRoutesFromDirectory (Strict.importFrom Strict.oneBadModules) Strict.register
    (Directory
       ([("health.ts", RegularFile); ("legacy.js", RegularFile)] ++
        ("private",
         UnreadableDirectory
           (ErrorObject "Error"
              "EACCES: permission denied, scandir '/app/src/routes/v1/private'")) ::
        [("users", Directory [("[id].ts", RegularFile)])]))
    "/app/src/routes/v1" "v1" Strict.start =
  loadRoutesFromDirectory (Strict.importFrom Strict.oneBadModules) Strict.register
    (Directory [("users", Directory [("[id].ts", RegularFile)])])
    "/app/src/routes/v1" "v1"
    (mkLoaderState (fastify st1)
       (events st1 ++
        [Log error
           (DirectoryError (join "/app/src/routes/v1" "private")
              (errorName
                 (ErrorObject "Error"
                    "EACCES: permission denied, scandir '/app/src/routes/v1/private'"))
              (errorMessage
                 (ErrorObject "Error"
                    "EACCES: permission denied, scandir '/app/src/routes/v1/private'")))
           ("Error loading routes from directory " ++
            join "/app/src/routes/v1" "private")])).
Proof.
  exact (unreadable_subdirectory_is_skipped
           (Strict.importFrom Strict.oneBadModules) Strict.register
           [("health.ts", RegularFile); ("legacy.js", RegularFile)]
           [("users", Directory [("[id].ts", RegularFile)])]
           "private"
           (ErrorObject "Error"
              "EACCES: permission denied, scandir '/app/src/routes/v1/private'")
           "/app/src/routes/v1" "v1" Strict.start eq_refl).
Defined.

Lemma stat_failure_ends_the_directory_witness :
  let st1 :=
    snd (loadRoutesFromDirectory (Strict.importFrom Strict.oneBadModules)
           Strict.register (Directory [("health.ts", RegularFile)])
           "/app/src/routes/v1" "v1" Strict.start) in
  loadRoutesFromDirectory (Strict.importFrom Strict.oneBadModules) Strict.register
    (Directory
       ([("health.ts", RegularFile)] ++
        ("latest.ts", Absent (Strict.ENOENT "stat" "/app/src/routes/v1/latest.ts")) ::
        [("legacy.js", RegularFile)]))
    "/app/src/routes/v1" "v1" Strict.start =
  (inr tt,
   mkLoaderState (fastify st1)
     (events st1 ++
      [Log error
         (DirectoryError "/app/src/routes/v1"
            (errorName (Strict.ENOENT "stat" "/app/src/routes/v1/latest.ts"))
            (errorMessage (Strict.ENOENT "stat" "/app/src/routes/v1/latest.ts")))
         ("Error loading routes from directory " ++ "/app/src/routes/v1")])).
Proof.
  exact (stat_failure_ends_the_directory
           (Strict.importFrom Strict.oneBadModules) Strict.register
           [("health.ts", RegularFile)] [("legacy.js", RegularFile)]
           "latest.ts" (Strict.ENOENT "stat" "/app/src/routes/v1/latest.ts")
           "/app/src/routes/v1" "v1" Strict.start eq_refl).
Defined.

Lemma ignored_entries_change_nothing_witness :
  loadRoutesFromDirectory (Strict.importFrom Strict.oneBadModules) Strict.register
    (Directory
       ([("health.ts", RegularFile)] ++
        ("index.html", RegularFile) :: [("legacy.js", RegularFile)]))
    "/app/src/routes/v1" "v1" Strict.start =
  loadRoutesFromDirectory (Strict.importFrom Strict.oneBadModules) Strict.register
    (Directory ([("health.ts", RegularFile)] ++ [("legacy.js", RegularFile)]))
    "/app/src/routes/v1" "v1" Strict.start.
Proof.
  exact (ignored_entries_change_nothing
           (Strict.importFrom Strict.oneBadModules) Strict.register
           [("health.ts", RegularFile)] [("legacy.js", RegularFile)]
           ("index.html", RegularFile)
           "/app/src/routes/v1" "v1" Strict.start eq_refl).
Defined.

Lemma server_changes_only_through_register_witness :
  exists evs,
    loadRoutes (Strict.importFrom []) Strict.register "/app" Strict.oneBadRoutes
      (mkLoaderState (Strict.mkServer [(Strict.GET, "/health")] None) []) =
      (inr tt,
       mkLoaderState (Strict.mkServer [(Strict.GET, "/health")] None) ([] ++ evs)) /\
    registersOf evs = [].
Proof.
  exact (server_changes_only_through_register
           (Strict.importFrom []) Strict.register "/app" Strict.oneBadRoutes
           (mkLoaderState (Strict.mkServer [(Strict.GET, "/health")] None) [])
           eq_refl).
Defined.
